(** * Auto-Guard: the synthetic data generators and the dashboard's buffers

    A shallow embedding of [src/utils/dataGenerators.ts] (the traffic, log and
    flow generators) together with the two state updaters that consume them
    ([updateTrafficData] in [App.tsx] and the interval callback of
    [LogTable]), of the components that display their results ([LogTable],
    [TrafficGraph], the globe) and of the self-contained state updaters of
    [Sidebar], [ResourceMonitoring] and [Statistics], and the properties of
    these functions.

    Modelling conventions.
    - A JavaScript integer [number] is a [Z]; a [Date] is the [Z] number of
      milliseconds it wraps.  A field or array element that may be
      [undefined]/[null] is an [option].
      The generators and the two buffers only meet integers; the values of
      the gauges and of the pie charts have a fraction and are rationals.
      Dates outside the range a [Date] can hold are not part of the model.
    - [Math.random()] and [new Date()] are the only effects.  The host is a
      pair of oracles giving the successive results of the two calls; the
      generators run in a state monad whose state counts the calls made so
      far.
    - A Number is the rational it denotes.  A result of [Math.random()] is
      a binary64 value; a decimal literal such as [0.6] is the binary64
      value nearest to it; a product is the exact product rounded to the
      nearest binary64 value, ties to even; comparisons and [Math.floor]
      are exact.  Values beyond the largest binary64 value do not occur.
    - The only operation of the generators that can throw is a property read
      on a [null] sample; the functions of the model are total, and a [None]
      sample reaches no field access. *)

From Stdlib Require Import String Ascii DecimalString.
From Stdlib Require Import ZArith QArith Qround Qpower Qminmax List Sorted Bool.
From Stdlib Require Import Lia Lqa.
Import ListNotations.

Local Open Scope Z_scope.

(** ** Numbers

    The binary64 values, as rationals, and the rounding of an exact result
    to the nearest of them. *)

(** [2^e] *)
Definition pow2 (e : Z) : Q := (2 ^ e)%Q.

(** The exponent of the leading bit of a positive [x]: the [e] with
    [2^e <= x < 2^(e+1)]. *)
Definition ilog2 (x : Q) : Z :=
  let d := Z.log2 (Qnum x) - Z.log2 (Zpos (Qden x)) in
  if Qle_bool (pow2 d) x then d else d - 1.

(** The integer nearest to [x], the even one of the two when [x] lies
    half way. *)
Definition rne (x : Q) : Z :=
  let f := Qfloor x in
  match (x - inject_Z f ?= 1 # 2)%Q with
  | Lt => f
  | Gt => f + 1
  | Eq => if Z.even f then f else f + 1
  end.

(** The distance between neighbouring binary64 values around a positive
    [x]: 53 significant bits, and [2^-1074] below [2^-1022]. *)
Definition ulp (x : Q) : Q := pow2 (Z.max (ilog2 x) (-1022) - 52).

Definition fl_pos (x : Q) : Q := inject_Z (rne (x / ulp x)) * ulp x.

(** The binary64 value nearest to [x], ties to even. *)
Definition fl (x : Q) : Q :=
  match (x ?= 0)%Q with
  | Eq => 0
  | Gt => fl_pos x
  | Lt => - fl_pos (- x)
  end.

(** [q] is a binary64 value: 53 significant bits at most, and an exponent
    within the format's range. *)
Definition is_number (q : Q) : Prop :=
  exists m e : Z,
    (q == inject_Z m * pow2 e)%Q /\ Z.abs m < 2 ^ 53 /\ -1074 <= e <= 971.

(** ** The host: random numbers and the clock *)

Module Host.

(** What the runtime answers: [random n] is the value of the [n]-th call of
    [Math.random()], [clock n] the time read by the [n]-th [new Date()]. *)
Record t : Type := mk {
  random : nat -> Q;
  clock : nat -> Z
}.

(** How many calls of each kind have been made. *)
Record Cursor : Type := at_ {
  draws : nat;
  reads : nat
}.

Definition boot : Cursor := at_ 0 0.

(** A computation that may draw random numbers and read the clock. *)
Definition Eff (A : Type) : Type := t -> Cursor -> A * Cursor.

Definition ret {A} (a : A) : Eff A := fun _ c => (a, c).

Definition bind {A B} (m : Eff A) (k : A -> Eff B) : Eff B :=
  fun h c => let (a, c') := m h c in k a h c'.

(** [Math.random()] *)
Definition Math_random : Eff Q :=
  fun h c => (random h (draws c), at_ (S (draws c)) (reads c)).

(** [new Date()], as milliseconds *)
Definition Date_now : Eff Z :=
  fun h c => (clock h (reads c), at_ (draws c) (S (reads c))).

(** The contract of [Math.random()]: every result is a Number that lies in
    [0, 1). *)
Definition in_unit_interval (h : t) : Prop :=
  forall n,
    is_number (random h n) /\ (0 <= random h n)%Q /\ (random h n < 1)%Q.

End Host.

Import Host.

Declare Scope eff_scope.
Delimit Scope eff_scope with eff.
Notation "x <- m ;; k" := (bind m (fun x => k))
  (at level 61, m at next level, right associativity) : eff_scope.
Local Open Scope eff_scope.

(** ** JavaScript primitives used by the generators *)

(** [Math.floor(Math.random() * n)]: the product is rounded, the floor is
    exact. *)
Definition random_floor (n : Z) : Eff Z :=
  r <- Math_random ;; ret (Qfloor (fl (r * inject_Z n))).

(** [arr[k]] for an integer [k]: [undefined] outside the array. *)
Definition js_index {A} (arr : list A) (k : Z) : option A :=
  if k <? 0 then None else nth_error arr (Z.to_nat k).

(** [x || 0] on a numeric field: [undefined], [null] and [0] all give [0]. *)
Definition or_zero (x : option Z) : Z :=
  match x with Some v => v | None => 0 end.

(** The string of an integer inside a template literal. *)
Definition Number_toString (z : Z) : string :=
  NilZero.string_of_int (Z.to_int z).

(** [for (let i = 0; i < n; i++) out.push(body(i))], for an integer [n]:
    the body runs [max 0 n] times, [i] going up from [0]. *)
Fixpoint for_push_from {A} (i : Z) (iters : nat) (body : Z -> Eff A)
  : Eff (list A) :=
  match iters with
  | O => ret []
  | S k =>
      x <- body i ;;
      xs <- for_push_from (i + 1) k body ;;
      ret (x :: xs)
  end.

Definition for_push {A} (n : Z) (body : Z -> Eff A) : Eff (list A) :=
  for_push_from 0 (Z.to_nat n) body.

(** [arr.reduce(f, init)] with an effectful callback, left to right. *)
Fixpoint reduce {A B} (f : B -> A -> Eff B) (arr : list A) (acc : B)
  : Eff B :=
  match arr with
  | [] => ret acc
  | x :: rest => acc' <- f acc x ;; reduce f rest acc'
  end.

(** [arr.slice(-n)] for [n > 0]: the last [n] elements. *)
Definition slice_last {A} (n : nat) (arr : list A) : list A :=
  skipn (length arr - n) arr.

(** [arr.slice(0, n)]: the first [n] elements. *)
Definition slice_first {A} (n : nat) (arr : list A) : list A :=
  firstn n arr.

(** ** Data *)

(** [{ inbound, outbound, time }]; each field may be missing. *)
Record TrafficSample : Type := mkSample {
  time : option Z;
  inbound : option Z;
  outbound : option Z
}.

Record LogEntry : Type := mkLog {
  timestamp : Z;
  sourceIP : string;
  sourcePort : Z;
  destinationIP : string;
  destinationPort : Z;
  protocol : option string;
  type : option string;
  trafficVolume : Z
}.

Record Flow : Type := mkFlow {
  start : option string;
  end_ : option string
}.

(** ** generateTrafficData *)

(** Lines 34-39: the body of the loop, for index [i]. *)
Definition trafficSample (now count i : Z) : Eff TrafficSample :=
  let time := now - (count - 1 - i) * 2000 in
  inb <- random_floor 30 ;;
  outb <- random_floor 30 ;;
  ret (mkSample (Some time) (Some inb) (Some outb)).

(** [count] is [None] when the argument is omitted. *)
Definition generateTrafficData (count : option Z) : Eff (list TrafficSample) :=
  let count := match count with Some n => n | None => 30 end in
  now <- Date_now ;;
  for_push count (trafficSample now count).

(** ** generateLogData *)

Definition protocols : list string :=
  ["TCP"; "UDP"; "HTTP"; "HTTPS"; "FTP"; "SMTP"; "DNS"]%string.

Definition maliciousTypes : list string :=
  [ "악성(DDoS)";
    "악성(SQL Injection)";
    "악성(XSS)";
    "악성(Port Scan)";
    "악성(Brute Force)";
    "악성(Malware)";
    "악성(Phishing)";
    "악성(Command Injection)";
    "악성(File Inclusion)" ]%string.

Definition type_normal : string := "정상".
Definition type_novel : string := "새로운 패턴".


(** [x < y] on numbers, as the test of an [if]. *)
Definition Qltb (x y : Q) : bool :=
  (Qnum x * QDen y <? Qnum y * QDen x)%Z.

(** Lines 70-78: the type of one log entry. *)
Definition pickType : Eff (option string) :=
  randomValue <- Math_random ;;
  if Qltb randomValue (fl 0.6) then
    ret (Some type_normal)
  else if Qltb randomValue (fl 0.9) then
    k <- random_floor (Z.of_nat (length maliciousTypes)) ;;
    ret (js_index maliciousTypes k)
  else
    ret (Some type_novel).

(** The template literal of four random octets joined by dots. *)
Definition randomIP : Eff string :=
  a <- random_floor 256 ;;
  b <- random_floor 256 ;;
  c <- random_floor 256 ;;
  d <- random_floor 256 ;;
  ret (Number_toString a ++ "." ++ Number_toString b ++ "."
         ++ Number_toString c ++ "." ++ Number_toString d)%string.

(** Lines 70-93: one iteration of the inner loop. *)
Definition logEntry (traffic : TrafficSample) : Eff LogEntry :=
  ty <- pickType ;;
  ts <- match time traffic with
        | Some t => ret t
        | None => Date_now
        end ;;
  srcIP <- randomIP ;;
  srcPort <- random_floor 65536 ;;
  dstIP <- randomIP ;;
  dstPort <- random_floor 65536 ;;
  k <- random_floor (Z.of_nat (length protocols)) ;;
  vol <- random_floor 1000 ;;
  ret (mkLog ts srcIP srcPort dstIP dstPort (js_index protocols k) ty vol).

(** The callback of [trafficData.reduce]. *)
Definition logsOfSample (acc : list LogEntry) (traffic : option TrafficSample)
  : Eff (list LogEntry) :=
  match traffic with
  | None => ret acc
  | Some traffic =>
      let totalTraffic :=
        or_zero (inbound traffic) + or_zero (outbound traffic) in
      logs <- for_push totalTraffic (fun _ => logEntry traffic) ;;
      ret (acc ++ logs)
  end.

(** The local [newLogs] of [generateLogData]. *)
Definition newLogs (trafficData : list (option TrafficSample))
  : Eff (list LogEntry) :=
  reduce logsOfSample trafficData [].

(** [existingLogs] is [None] when the argument is omitted or [null]. *)
Definition generateLogData (trafficData : list (option TrafficSample))
    (existingLogs : option (list LogEntry)) : Eff (list LogEntry) :=
  fresh <- newLogs trafficData ;;
  ret (match existingLogs with Some l => l | None => [] end ++ fresh).

(** ** generateFlowData *)

Definition countries : list string :=
  ["KR"; "US"; "CN"; "JP"; "UK"; "DE"; "FR"; "IN"; "BR"; "AU"]%string.

Definition generateFlowData : Eff (list Flow) :=
  for_push 50 (fun _ =>
    s <- random_floor (Z.of_nat (length countries)) ;;
    e <- random_floor (Z.of_nat (length countries)) ;;
    ret (mkFlow (js_index countries s) (js_index countries e))).

(** ** The dashboard's two buffers *)

Definition is_some {A} (x : option A) : bool :=
  match x with Some _ => true | None => false end.

(** The predicate of the [filter] in [updateTrafficData]. *)
Definition isSample (data : option TrafficSample) : bool :=
  match data with
  | None => false
  | Some d => is_some (inbound d) && is_some (outbound d) && is_some (time d)
  end.

(** [App.updateTrafficData]: the new value of the [trafficData] state. *)
Definition updateTrafficData (prevData : list (option TrafficSample))
  : Eff (list (option TrafficSample)) :=
  generated <- generateTrafficData None ;;
  match js_index generated 0 with
  | None => ret prevData
  | Some newData =>
      let updatedData := slice_last 29 prevData ++ [Some newData] in
      ret (filter isSample updatedData)
  end.

(** The interval callback of [LogTable]: the new value of the [logs] state. *)
Definition updateLogs (trafficData : list (option TrafficSample))
    (prevLogs : list LogEntry) : Eff (list LogEntry) :=
  fresh <- generateLogData (slice_last 1 trafficData) (Some []) ;;
  ret (if (0 <? length fresh)%nat
       then slice_first 100 (fresh ++ prevLogs)
       else prevLogs).

Record Dashboard : Type := mkDashboard {
  trafficData : list (option TrafficSample);
  logs : list LogEntry
}.

(** Both states start empty. *)
Definition mounted : Dashboard := mkDashboard [] [].

(** The two periodic timers: 2 s for the traffic window, 1 s for the logs. *)
Inductive Timer : Type := TrafficTimer | LogTimer.

Definition tick (t : Timer) (d : Dashboard) : Eff Dashboard :=
  match t with
  | TrafficTimer =>
      w <- updateTrafficData (trafficData d) ;;
      ret (mkDashboard w (logs d))
  | LogTimer =>
      l <- updateLogs (trafficData d) (logs d) ;;
      ret (mkDashboard (trafficData d) l)
  end.

(** The timers firing in the given order, one callback at a time. *)
Fixpoint run (ts : list Timer) (d : Dashboard) : Eff Dashboard :=
  match ts with
  | [] => ret d
  | t :: rest => d' <- tick t d ;; run rest d'
  end.

(** ** LogTable: what a row of the table shows *)

(** [s.startsWith(p)] *)
Definition startsWith (s p : string) : bool := String.prefix p s.

(** The callback of the [filter] in [getFilteredLogs], for the selected
    filter value; an entry may be [null] and its type may not be a string. *)
Definition keepsLog (selected : string) (log : option LogEntry) : bool :=
  match log with
  | None => false
  | Some l =>
      match type l with
      | None => false
      | Some ty =>
          if (selected =? "all")%string then true
          else if (selected =? "normal")%string then (ty =? "정상")%string
          else if (selected =? "malicious")%string then startsWith ty "악성"
          else if (selected =? "new")%string then (ty =? "새로운 패턴")%string
          else false
      end
  end.

Definition getFilteredLogs (logs : list (option LogEntry)) (selected : string)
  : list (option LogEntry) :=
  match logs with
  | [] => []
  | _ => filter (keepsLog selected) logs
  end.

Definition getTypeColor (ty : string) : string :=
  if (ty =? "정상")%string then "text-green-600"
  else if (ty =? "악성")%string then "text-red-600"
  else if (ty =? "새로운 패턴")%string then "text-yellow-600"
  else "text-gray-600".

Inductive Icon : Type := CheckCircle | AlertTriangle.

(** [null] is [None]. *)
Definition getTypeIcon (ty : string) : option Icon :=
  if (ty =? "정상")%string then Some CheckCircle
  else if startsWith ty "악성" then Some AlertTriangle
  else None.

(** The text of the type cell:
    [log.type.startsWith("악성") ? "악성" : log.type || "N/A"]. *)
Definition typeLabel (ty : string) : string :=
  if startsWith ty "악성" then "악성"
  else if (ty =? "")%string then "N/A"
  else ty.

(** ** TrafficGraph: the series handed to the two charts *)

Definition validInboundData (trafficData : list (option TrafficSample))
  : list Z :=
  map (fun d => match d with
                | Some {| inbound := Some v |} => v
                | _ => 0
                end) trafficData.

Definition validOutboundData (trafficData : list (option TrafficSample))
  : list Z :=
  map (fun d => match d with
                | Some {| outbound := Some v |} => v
                | _ => 0
                end) trafficData.

(** [arr.map(f)] with an effectful callback, left to right. *)
Fixpoint map_eff {A B} (f : A -> Eff B) (arr : list A) : Eff (list B) :=
  match arr with
  | [] => ret []
  | x :: rest => y <- f x ;; ys <- map_eff f rest ;; ret (y :: ys)
  end.

(** The labels: [trafficData.map((d) => d?.time ?? new Date())]. *)
Definition chartLabels (trafficData : list (option TrafficSample))
  : Eff (list Z) :=
  map_eff (fun d => match d with
                    | Some {| time := Some t |} => ret t
                    | _ => Date_now
                    end) trafficData.

(** The upper end of the y axis of both charts. *)
Definition chart_y_max : Z := 30.

(** ** GlobeTrafficFlow: where a flow is drawn *)

Record LatLon : Type := mkLatLon { lat : Q; lon : Q }.

(** The table of [getCoordinates], in the order of the source. *)
Definition coordinates : list (string * LatLon) :=
  [ ("KR", mkLatLon 37.5665 126.978);
    ("US", mkLatLon 37.0902 (-95.7129));
    ("CN", mkLatLon 35.8617 104.1954);
    ("JP", mkLatLon 36.2048 138.2529);
    ("UK", mkLatLon 55.3781 (-3.436));
    ("DE", mkLatLon 51.1657 10.4515);
    ("FR", mkLatLon 46.2276 2.2137);
    ("IN", mkLatLon 20.5937 78.9629);
    ("BR", mkLatLon (-14.235) (-51.9253));
    ("AU", mkLatLon (-25.2744) 133.7751) ]%string.

(** [obj[key]] on an object literal whose keys are the ones listed; the
    names every object inherits ([constructor], [toString], ...) are not
    modelled. *)
Fixpoint js_property {V} (obj : list (string * V)) (key : string) : option V :=
  match obj with
  | [] => None
  | (k, v) :: rest => if (k =? key)%string then Some v else js_property rest key
  end.

Definition getCoordinates (countryCode : string) : LatLon :=
  match js_property coordinates countryCode with
  | Some c => c
  | None => mkLatLon 0 0
  end.

(** The guard of the [flowData.map] callback in [Earth]: a flow is drawn
    unless it is [null] or one of its codes is missing or empty. *)
Definition isDrawn (flow : option Flow) : bool :=
  match flow with
  | Some {| start := Some s; end_ := Some e |} =>
      negb (s =? "")%string && negb (e =? "")%string
  | _ => false
  end.

(** ** Sidebar: the open menus *)

(** [prev.includes(menu) ? prev.filter((item) => item !== menu)
                         : [...prev, menu]] *)
Definition toggleMenu (menu : string) (prev : list string) : list string :=
  if existsb (String.eqb menu) prev
  then filter (fun item => negb (item =? menu)%string) prev
  else prev ++ [menu].

(** The props of a [MenuItem]: its label and its sub items. *)
Record MenuItem : Type := mkMenuItem {
  label : string;
  subItems : list string
}.

Definition hasSubItems (item : MenuItem) : bool :=
  (0 <? length (subItems item))%nat.

(** [onClick={() => hasSubItems && toggleMenu(label)}] *)
Definition onClick (item : MenuItem) (openMenus : list string) : list string :=
  if hasSubItems item then toggleMenu (label item) openMenus else openMenus.

(** The open menus after the given items were clicked, in that order. *)
Definition clicked (items : list MenuItem) (openMenus : list string)
  : list string :=
  fold_left (fun opened item => onClick item opened) items openMenus.

(** ** ResourceMonitoring: the gauges

    The values of the gauges and of the pie charts below are numbers with a
    fraction; they are rationals here, [Math.min] and [Math.max] are the
    exact minimum and maximum, and [Math.round] is [floor (x + 1/2)]. *)

Definition Math_round (x : Q) : Z := Qfloor (x + 0.5).

Module ResourceMonitoring.

Record Resource : Type := mk {
  name : string;
  value : Q;
  maxValue : Q;
  unit_ : string;
  icon : string;
  color : string
}.

(** The initial state of [resources]. *)
Definition initial : list Resource :=
  [ mk "CPU 점유율" 45 100 "%" "Cpu" "#3B82F6";
    mk "CPU 온도" 55 100 "°C" "Thermometer" "#EF4444";
    mk "쿨러 팬 상태" 3500 3500 "RPM" "Fan" "#10B981";
    mk "메모리 점유율" 60 100 "%" "MemoryStick" "#8B5CF6";
    mk "메모리 온도" 40 100 "°C" "Thermometer" "#F59E0B";
    mk "대역폭" 75 100 "Mbps" "Activity" "#6366F1" ]%string.

(** The callback of [prevResources.map]. *)
Definition next (resource : Resource) : Eff Resource :=
  r <- Math_random ;;
  ret (mk (name resource)
          (Qmin (maxValue resource)
                (Qmax 0 (value resource + (r - 0.5) * 10)))
          (maxValue resource) (unit_ resource) (icon resource)
          (color resource)).

(** The state updater run every 2 s. *)
Definition update (prevResources : list Resource) : Eff (list Resource) :=
  map_eff next prevResources.

(** The state after the interval fired [n] times. *)
Fixpoint after (n : nat) (resources : list Resource) : Eff (list Resource) :=
  match n with
  | O => ret resources
  | S k => resources' <- update resources ;; after k resources'
  end.

(** The [value] prop of the gauge of a resource. *)
Definition shown (resource : Resource) : Z := Math_round (value resource).

(** [SemiCircleGauge]: the two slices of the half pie, for the props
    [value] and [maxValue]; [maxValue] is not zero. *)
Definition percentage (value maxValue : Q) : Q := (value / maxValue) * 100.

Definition slices (value maxValue : Q) : list Q :=
  [percentage value maxValue; (100 - percentage value maxValue)%Q].

End ResourceMonitoring.

(** ** Statistics: the two pie charts *)

Module Statistics.

Record Item : Type := mk { name : string; value : Q }.

Definition attackData0 : list Item :=
  [ mk "정상 패킷" 60; mk "악성 패킷" 30; mk "새로운 패턴" 10 ]%string.

Definition trafficData0 : list Item :=
  [ mk "미국" 35; mk "중국" 25; mk "한국" 20; mk "기타" 20 ]%string.

(** The callback of both [prevData.map]. *)
Definition next (item : Item) : Eff Item :=
  r <- Math_random ;;
  ret (mk (name item) (Qmax 0 (value item + (r - 0.5) * 5))).

(** The interval callback: [attackData] first, then [trafficData]. *)
Definition update (state : list Item * list Item)
  : Eff (list Item * list Item) :=
  attack <- map_eff next (fst state) ;;
  traffic <- map_eff next (snd state) ;;
  ret (attack, traffic).

Fixpoint after (n : nat) (state : list Item * list Item)
  : Eff (list Item * list Item) :=
  match n with
  | O => ret state
  | S k => state' <- update state ;; after k state'
  end.

(** [data.reduce((sum, item) => sum + item.value, 0)] *)
Definition totalTraffic (data : list Item) : Q :=
  fold_left (fun sum item => sum + value item)%Q data 0%Q.

Definition COLORS : list string :=
  ["#10B981"; "#EF4444"; "#F59E0B"; "#3B82F6"]%string.

(** The fill of the cell of index [index]:
    [COLORS[index % COLORS.length]]. *)
Definition cellFill (index : nat) : option string :=
  js_index COLORS (Z.of_nat index mod Z.of_nat (length COLORS)).

End Statistics.

(** ** Hosts used in the examples *)

(** Every draw is [1/2]; the clock reads [1000000]. *)
Definition host_half : Host.t := Host.mk (fun _ => 1 # 2) (fun _ => 1000000).

(** The draws cycle through the Numbers 0, 0.1, ..., 0.9; the clock advances
    by 7 ms. *)
Definition host_cycle : Host.t :=
  Host.mk (fun n => fl (Z.of_nat (n mod 10) # 10))
          (fun n => 1000000 + 7 * Z.of_nat n).

(** Every draw is the Number 0.6; the clock reads [0]. *)
Definition host_threshold : Host.t := Host.mk (fun _ => fl 0.6) (fun _ => 0).

(** ** Vocabulary of the statements *)

(** The entries a sample asks for: one per unit of inbound and outbound
    volume, a missing volume counting as zero, no sample counting as none. *)
Definition emitted (traffic : option TrafficSample) : nat :=
  match traffic with
  | None => 0
  | Some t => Z.to_nat (or_zero (inbound t) + or_zero (outbound t))
  end.

(** A sample as the traffic generator makes them: both volumes present and
    non-negative. *)
Definition wellFormed (traffic : option TrafficSample) : bool :=
  match traffic with
  | Some {| inbound := Some i; outbound := Some o |} => (0 <=? i) && (0 <=? o)
  | _ => false
  end.

(** [inbound + outbound] of a sample that has both. *)
Definition requested (traffic : option TrafficSample) : Z :=
  match traffic with
  | Some {| inbound := Some i; outbound := Some o |} => i + o
  | _ => 0
  end.

(** The sample with [0] written into each missing volume. *)
Definition zeroFilled (t : TrafficSample) : TrafficSample :=
  mkSample (time t) (Some (or_zero (inbound t))) (Some (or_zero (outbound t))).

Definition sample_one : TrafficSample := mkSample (Some 5) (Some 1) (Some 0).

Definition old_entry : LogEntry :=
  mkLog 0 "10.0.0.1" 80 "10.0.0.2" 443 (Some "TCP"%string) (Some type_normal) 1.

(** The cursors at which [n] successive runs of [body] start, the first of
    them at [c]. *)
Fixpoint starts {A} (body : Eff A) (h : Host.t) (n : nat) (c : Cursor)
  : list Cursor :=
  match n with
  | O => []
  | S k => c :: starts body h k (snd (body h c))
  end.

(** The cursor that [n] successive runs of [body] from [c] leave. *)
Fixpoint finish {A} (body : Eff A) (h : Host.t) (n : nat) (c : Cursor)
  : Cursor :=
  match n with
  | O => c
  | S k => finish body h k (snd (body h c))
  end.

(** The iterations of the inner loop that a call on [samples] made at
    cursor [c] goes through, in order, each with its sample and the cursor
    at which it starts: one iteration per unit of volume of every non-null
    sample, each starting where the one before stopped. *)
Fixpoint iterations (samples : list (option TrafficSample)) (h : Host.t)
    (c : Cursor) : list (TrafficSample * Cursor) :=
  match samples with
  | [] => []
  | None :: rest => iterations rest h c
  | Some t :: rest =>
      let n := emitted (Some t) in
      map (pair t) (starts (logEntry t) h n c)
        ++ iterations rest h (finish (logEntry t) h n c)
  end.

(** The entry an iteration makes, and the first number it draws. *)
Definition madeBy (h : Host.t) (it : TrafficSample * Cursor) : LogEntry :=
  fst (logEntry (fst it) h (snd it)).

Definition firstDraw (h : Host.t) (it : TrafficSample * Cursor) : Q :=
  random h (draws (snd it)).

(** The shares the source's comments give to the three types. *)
Definition weight_normal : Q := 0.6.
Definition weight_malicious : Q := 0.3.
Definition weight_novel : Q := 0.1.

(** How a draw [r] decides the type [ty] of an entry. *)
Definition classifiedBy (r : Q) (ty : option string) : Prop :=
  (ty = Some type_normal <-> (r < fl 0.6)%Q)
  /\ ((exists m, In m maliciousTypes /\ ty = Some m)
      <-> (fl 0.6 <= r)%Q /\ (r < fl 0.9)%Q)
  /\ (ty = Some type_novel <-> (fl 0.9 <= r)%Q).

(** The [k]-th sample of a call made at cursor [c] with the given count:
    its time counts back from the clock reading in steps of 2000 ms, its
    volumes come from the draws number [2k] and [2k+1] of the call. *)
Definition sampleAt (h : Host.t) (c : Cursor) (count : Z) (k : nat)
  : TrafficSample :=
  mkSample
    (Some (clock h (reads c) - (count - 1 - Z.of_nat k) * 2000))
    (Some (Qfloor (fl (random h (draws c + 2 * k) * 30))))
    (Some (Qfloor (fl (random h (draws c + 2 * k + 1) * 30)))).

(** What holds of the dashboard between two callbacks. *)
Definition bounded (d : Dashboard) : Prop :=
  (length (logs d) <= 100)%nat
  /\ (length (trafficData d) <= 30)%nat
  /\ forallb isSample (trafficData d) = true.

(** *** Vocabulary for the log entries *)

Definition isOctet (z : Z) : Prop := 0 <= z < 256.

Definition isPort (z : Z) : Prop := 0 <= z < 65536.

(** [a.b.c.d] in decimal. *)
Definition dottedQuad (a b c d : Z) : string :=
  (Number_toString a ++ "." ++ Number_toString b ++ "."
     ++ Number_toString c ++ "." ++ Number_toString d)%string.

Definition isAddress (s : string) : Prop :=
  exists a b c d,
    isOctet a /\ isOctet b /\ isOctet c /\ isOctet d
    /\ s = dottedQuad a b c d.

(** The three kinds of type a generated entry can have. *)
Definition isKnownType (ty : option string) : Prop :=
  ty = Some type_normal
  \/ ty = Some type_novel
  \/ exists m, In m maliciousTypes /\ ty = Some m.

(** Everything but the timestamp of an entry is as the generator draws
    it. *)
Definition isGeneratedEntry (e : LogEntry) : Prop :=
  isAddress (sourceIP e) /\ isPort (sourcePort e)
  /\ isAddress (destinationIP e) /\ isPort (destinationPort e)
  /\ (exists p, protocol e = Some p /\ In p protocols)
  /\ isKnownType (type e)
  /\ 0 <= trafficVolume e < 1000.

(** A sample is null or carries a time. *)
Definition hasTime (traffic : option TrafficSample) : bool :=
  match traffic with
  | None => true
  | Some t => is_some (time t)
  end.

(** The timestamps of the entries of one sample. *)
Definition stamps (traffic : option TrafficSample) : list Z :=
  match traffic with
  | Some {| time := Some t |} => repeat t (emitted traffic)
  | _ => []
  end.

(** The entry has one of the malicious types. *)
Definition isMalicious (e : LogEntry) : bool :=
  match type e with
  | Some ty => startsWith ty "악성"
  | None => false
  end.

(** A sample as every traffic tick adds them to the window. *)
Definition isGeneratedSample (d : option TrafficSample) : Prop :=
  exists t i o,
    d = Some (mkSample (Some t) (Some i) (Some o))
    /\ 0 <= i < 30 /\ 0 <= o < 30.

(** The clock readings the entries of a sample need: one per entry when the
    sample has no time. *)
Definition clockReads (traffic : option TrafficSample) : nat :=
  if hasTime traffic then 0 else emitted traffic.

(** The [k]-th pair of a call of [generateFlowData] made at cursor [c]. *)
Definition flowAt (h : Host.t) (c : Cursor) (k : nat) : Flow :=
  mkFlow
    (js_index countries (Qfloor (fl (random h (draws c + 2 * k) * 10))))
    (js_index countries (Qfloor (fl (random h (draws c + 2 * k + 1) * 10)))).

(** The draws spent on the type of an entry. *)
Definition typeDraws (ty : option string) : nat :=
  match ty with
  | Some ty => if startsWith ty "악성" then 2 else 1
  | None => 1
  end.

(** The sample a traffic tick made at cursor [c] adds to the window. *)
Definition arrival (h : Host.t) (c : Cursor) : TrafficSample :=
  mkSample (Some (clock h (reads c) - 58000))
           (Some (Qfloor (fl (random h (draws c) * 30))))
           (Some (Qfloor (fl (random h (draws c + 1) * 30)))).

(** The window and the history hold generated data only. *)
Definition generated (d : Dashboard) : Prop :=
  Forall isGeneratedSample (trafficData d)
  /\ Forall isGeneratedEntry (logs d).

(** What the type cell of a row shows: colour class, icon and text. *)
Definition typeCell (ty : string) : string * option Icon * string :=
  (getTypeColor ty, getTypeIcon ty, typeLabel ty).

(** A point of the globe: latitude within 90 degrees of the equator,
    longitude within 180 degrees of the meridian. *)
Definition onGlobe (p : LatLon) : bool :=
  Qle_bool (-90) (lat p) && Qle_bool (lat p) 90
  && Qle_bool (-180) (lon p) && Qle_bool (lon p) 180.

(** A country code with an entry of its own in the table. *)
Definition located (code : option string) : Prop :=
  exists s p,
    code = Some s /\ js_property coordinates s = Some p
    /\ getCoordinates s = p /\ onGlobe p = true.

(** How often the clicks on [items] toggle the menu labelled [l]. *)
Definition toggles (l : string) (items : list MenuItem) : nat :=
  length (filter (fun item => hasSubItems item && (label item =? l)%string)
                 items).

(** A resource after some updates of the resource [r0]: everything but the
    value is as in [r0], and the value lies between 0 and the maximum. *)
Definition tracks (r0 r : ResourceMonitoring.Resource) : Prop :=
  ResourceMonitoring.name r = ResourceMonitoring.name r0
  /\ ResourceMonitoring.maxValue r = ResourceMonitoring.maxValue r0
  /\ ResourceMonitoring.unit_ r = ResourceMonitoring.unit_ r0
  /\ ResourceMonitoring.icon r = ResourceMonitoring.icon r0
  /\ ResourceMonitoring.color r = ResourceMonitoring.color r0
  /\ (0 <= ResourceMonitoring.value r)%Q
  /\ (ResourceMonitoring.value r <= ResourceMonitoring.maxValue r)%Q.

(** What the gauge of a resource displays: a whole number between 0 and the
    maximum, and two slices between 0 and 100. *)
Definition gaugeInRange (r : ResourceMonitoring.Resource) : Prop :=
  0 <= ResourceMonitoring.shown r
  /\ (inject_Z (ResourceMonitoring.shown r)
      <= ResourceMonitoring.maxValue r)%Q
  /\ Forall (fun q => 0 <= q /\ q <= 100)%Q
       (ResourceMonitoring.slices (inject_Z (ResourceMonitoring.shown r))
                                  (ResourceMonitoring.maxValue r)).

(** A pie chart after some updates of the chart [data0]: the same names in
    the same order, and no negative value. *)
Definition pieOf (data0 data : list Statistics.Item) : Prop :=
  Forall2 (fun i0 i =>
             Statistics.name i = Statistics.name i0
             /\ (0 <= Statistics.value i)%Q)
          data0 data.

(** The window made of the samples added by the traffic ticks that ran at
    the given cursors. *)
Definition arrivals (h : Host.t) (cs : list Cursor)
  : list (option TrafficSample) :=
  map (fun ck => Some (arrival h ck)) cs.

(** The window holds the samples of traffic ticks that ran one after the
    other, all before the cursor [c]. *)
Definition scheduled (h : Host.t) (d : Dashboard) (c : Cursor) : Prop :=
  exists cs,
    trafficData d = arrivals h cs
    /\ StronglySorted (fun a b => reads a < reads b)%nat cs
    /\ Forall (fun ck => reads ck < reads c)%nat cs.

(** The time of an element of the window. *)
Definition timeOf (d : option TrafficSample) : option Z :=
  match d with Some s => time s | None => None end.

(** The timestamp of the sample of the traffic tick that made the clock
    reading number [k]. *)
Definition stampOf (h : Host.t) (k : nat) : Z := clock h k - 58000.

(** The window is as in [scheduled], and the entries of the history are
    stamped with the times of traffic ticks, a later tick never standing
    behind an earlier one, and none of them later than the window's. *)
Definition chronicled (h : Host.t) (d : Dashboard) (c : Cursor) : Prop :=
  exists cs ks,
    trafficData d = arrivals h cs
    /\ StronglySorted (fun a b => reads a < reads b)%nat cs
    /\ Forall (fun ck => reads ck < reads c)%nat cs
    /\ map timestamp (logs d) = map (stampOf h) ks
    /\ StronglySorted ge ks
    /\ Forall (fun k => exists ck, In ck cs /\ (k <= reads ck)%nat) ks.

(** * Properties *)

(** ** Rounding *)

Lemma pow2_pos e : (0 < pow2 e)%Q.
Proof. apply Qpower_0_lt. reflexivity. Qed.

Lemma pow2_add a b : (pow2 (a + b) == pow2 a * pow2 b)%Q.
Proof. apply Qpower_plus. discriminate. Qed.

Lemma pow2_Z e : 0 <= e -> (pow2 e == inject_Z (2 ^ e))%Q.
Proof. intros He. unfold pow2. now rewrite Zpower_Qpower. Qed.

Lemma pow2_le a b : a <= b -> (pow2 a <= pow2 b)%Q.
Proof. intros H. apply Qpower_le_compat_l; [exact H | discriminate]. Qed.

Lemma ilog2_le (x : Q) : (0 < x)%Q -> (pow2 (ilog2 x) <= x)%Q.
Proof.
  intros Hx. unfold ilog2.
  set (a := Qnum x). set (b := Z.pos (Qden x)).
  set (d := Z.log2 a - Z.log2 b).
  destruct (Qle_bool (pow2 d) x) eqn:E; [now apply Qle_bool_iff|].
  assert (Ha : 0 < a) by (unfold Qlt in Hx; simpl in Hx; unfold a; lia).
  assert (Hb : 0 < b) by (unfold b; lia).
  destruct (Z.log2_spec a Ha) as [Ha1 _].
  destruct (Z.log2_spec b Hb) as [_ Hb2].
  pose proof (Z.log2_nonneg a) as Hla. pose proof (Z.log2_nonneg b) as Hlb.
  replace (d - 1) with (Z.log2 a + - Z.succ (Z.log2 b)) by (unfold d; lia).
  rewrite pow2_add. unfold pow2 at 2. rewrite Qpower_opp.
  rewrite (pow2_Z (Z.log2 a)) by exact Hla.
  fold (pow2 (Z.succ (Z.log2 b))). rewrite pow2_Z by lia.
  assert (Hx' : (x == inject_Z a / inject_Z b)%Q)
    by (destruct x as [n p]; apply Qmake_Qdiv).
  rewrite Hx'.
  assert (Hqb : (0 < inject_Z b)%Q)
    by (change 0%Q with (inject_Z 0); rewrite <- Zlt_Qlt; exact Hb).
  assert (Hqs : (0 < inject_Z (2 ^ Z.succ (Z.log2 b)))%Q)
    by (change 0%Q with (inject_Z 0); rewrite <- Zlt_Qlt; lia).
  apply Qle_shift_div_l; [exact Hqb|].
  unfold Qdiv. rewrite <- Qmult_assoc, (Qmult_comm (/ _)), Qmult_assoc.
  apply Qle_shift_div_r; [exact Hqs|].
  rewrite <- !inject_Z_mult, <- Zle_Qle. nia.
Qed.

Lemma ilog2_lt (x : Q) : (0 < x)%Q -> (x < pow2 (ilog2 x + 1))%Q.
Proof.
  intros Hx. unfold ilog2.
  set (a := Qnum x). set (b := Z.pos (Qden x)).
  set (d := Z.log2 a - Z.log2 b).
  destruct (Qle_bool (pow2 d) x) eqn:E.
  - assert (Ha : 0 < a) by (unfold Qlt in Hx; simpl in Hx; unfold a; lia).
    assert (Hb : 0 < b) by (unfold b; lia).
    destruct (Z.log2_spec a Ha) as [_ Ha2].
    destruct (Z.log2_spec b Hb) as [Hb1 _].
    pose proof (Z.log2_nonneg a) as Hla. pose proof (Z.log2_nonneg b) as Hlb.
    replace (d + 1) with (Z.succ (Z.log2 a) + - Z.log2 b) by (unfold d; lia).
    rewrite pow2_add. unfold pow2 at 2. rewrite Qpower_opp.
    rewrite (pow2_Z (Z.succ (Z.log2 a))) by lia.
    fold (pow2 (Z.log2 b)). rewrite pow2_Z by lia.
    assert (Hx' : (x == inject_Z a / inject_Z b)%Q)
      by (destruct x as [n p]; apply Qmake_Qdiv).
    rewrite Hx'.
    assert (Hqb : (0 < inject_Z b)%Q)
      by (change 0%Q with (inject_Z 0); rewrite <- Zlt_Qlt; exact Hb).
    assert (Hqs : (0 < inject_Z (2 ^ Z.log2 b))%Q)
      by (change 0%Q with (inject_Z 0); rewrite <- Zlt_Qlt; lia).
    apply Qlt_shift_div_r; [exact Hqb|].
    unfold Qdiv. rewrite <- Qmult_assoc, (Qmult_comm (/ _)), Qmult_assoc.
    apply Qlt_shift_div_l; [exact Hqs|].
    rewrite <- !inject_Z_mult, <- Zlt_Qlt. nia.
  - replace (d - 1 + 1) with d by lia. apply Qnot_le_lt. intros H.
    apply Qle_bool_iff in H. congruence.
Qed.

Lemma rne_le (x : Q) : (inject_Z (rne x) <= x + (1 # 2))%Q.
Proof.
  unfold rne. pose proof (Qfloor_le x) as Hf.
  destruct (Qcompare_spec (x - inject_Z (Qfloor x)) (1 # 2)) as [E|E|E];
    [destruct (Z.even (Qfloor x))| |];
    rewrite ?inject_Z_plus; change (inject_Z 1) with 1%Q; lra.
Qed.

Lemma rne_nonneg (x : Q) : (0 <= x)%Q -> 0 <= rne x.
Proof.
  intros Hx. unfold rne.
  assert (Hf : 0 <= Qfloor x)
    by (change 0 with (Qfloor 0); now apply Qfloor_resp_le).
  destruct (_ ?= _)%Q; [destruct (Z.even _)| |]; lia.
Qed.

Lemma fl_nonneg (x : Q) : (0 <= x)%Q -> (0 <= fl x)%Q.
Proof.
  intros Hx. unfold fl.
  destruct (Qcompare_spec x 0) as [E|E|E]; [lra | lra |].
  unfold fl_pos. pose proof (pow2_pos (Z.max (ilog2 x) (-1022) - 52)) as Hu.
  fold (ulp x) in Hu.
  apply Qmult_le_0_compat; [|lra].
  change 0%Q with (inject_Z 0). rewrite <- Zle_Qle. apply rne_nonneg.
  apply Qle_shift_div_l; [exact Hu | lra].
Qed.

Lemma fl_le_half_ulp (x : Q) : (0 < x)%Q -> (fl x <= x + ulp x * (1 # 2))%Q.
Proof.
  intros Hx. unfold fl.
  destruct (Qcompare_spec x 0) as [E|E|E]; [lra | lra |].
  unfold fl_pos. pose proof (pow2_pos (Z.max (ilog2 x) (-1022) - 52)) as Hu.
  fold (ulp x) in Hu.
  apply Qle_trans with ((x / ulp x + (1 # 2)) * ulp x)%Q.
  - apply Qmult_le_compat_r; [apply rne_le | lra].
  - rewrite Qmult_plus_distr_l, (Qmult_comm (x / ulp x)), Qmult_div_r by lra.
    lra.
Qed.

Lemma rne_ge (x : Q) : (x - (1 # 2) <= inject_Z (rne x))%Q.
Proof.
  unfold rne. pose proof (Qlt_floor x) as Hf.
  rewrite inject_Z_plus in Hf. change (inject_Z 1) with 1%Q in Hf.
  destruct (Qcompare_spec (x - inject_Z (Qfloor x)) (1 # 2)) as [E|E|E];
    [destruct (Z.even (Qfloor x))| |];
    rewrite ?inject_Z_plus; change (inject_Z 1) with 1%Q; lra.
Qed.

Lemma fl_ge_half_ulp (x : Q) : (0 < x)%Q -> (x - ulp x * (1 # 2) <= fl x)%Q.
Proof.
  intros Hx. unfold fl.
  destruct (Qcompare_spec x 0) as [E|E|E]; [lra | lra |].
  unfold fl_pos. pose proof (pow2_pos (Z.max (ilog2 x) (-1022) - 52)) as Hu.
  fold (ulp x) in Hu.
  apply Qle_trans with ((x / ulp x - (1 # 2)) * ulp x)%Q.
  - setoid_replace ((x / ulp x - (1 # 2)) * ulp x)%Q
      with (ulp x * (x / ulp x) - ulp x * (1 # 2))%Q by ring.
    rewrite Qmult_div_r by lra. lra.
  - apply Qmult_le_compat_r; [apply rne_ge | lra].
Qed.

(** The two literals of [generateLogData], as the Numbers they denote: the
    first lies below 6/10, the second above 9/10. *)
Example number_0_6 : Qred (fl 0.6) = 5404319552844595 # 9007199254740992.
Proof. vm_compute. reflexivity. Qed.

Example number_0_9 : Qred (fl 0.9) = 8106479329266893 # 9007199254740992.
Proof. vm_compute. reflexivity. Qed.

(** The floor is taken of the rounded product: for the draw
    [2552039788843281 / 2^52] the exact product with 30 lies below 17 and
    rounds to 17, and ten times the Number 0.7 rounds to 7. *)
Example floor_of_rounded_product :
  Qfloor (fl ((2552039788843281 # 4503599627370496) * 30)) = 17
  /\ Qfloor ((2552039788843281 # 4503599627370496) * 30) = 16
  /\ Qfloor (fl (fl 0.7 * 10)) = 7
  /\ Qfloor (fl 0.7 * 10) = 6.
Proof. vm_compute. repeat split; reflexivity. Qed.

(** The product of a scale [n >= 1] with a factor at most [1 - 2^-53]
    rounds below [n]. *)
Lemma fl_below (x n : Q) :
  (0 <= x)%Q -> (1 <= n)%Q -> (x <= n * (1 - (1 # 9007199254740992)))%Q ->
  (fl x < n)%Q.
Proof.
  intros Hx Hn Hxn.
  destruct (Qlt_le_dec 0 x) as [Hpos|Hzero].
  - apply Qle_lt_trans with (x + ulp x * (1 # 2))%Q;
      [now apply fl_le_half_ulp|].
    unfold ulp.
    destruct (Z.max_spec (ilog2 x) (-1022)) as [[_ ->]|[_ ->]].
    + change (pow2 (-1022 - 52)) with (pow2 (-1074)).
      assert (Hc : (pow2 (-1074) * (1 # 2) < (1 # 9007199254740992))%Q) by reflexivity.
      lra.
    + replace (ilog2 x - 52) with (ilog2 x + -52) by lia.
      rewrite pow2_add. pose proof (ilog2_le x Hpos) as Hl.
      pose proof (pow2_pos (ilog2 x)) as Hp.
      change (pow2 (-52)) with (1 # 4503599627370496)%Q.
      assert (H1 : (pow2 (ilog2 x) * (1 # 4503599627370496) * (1 # 2)
                    <= x * (1 # 9007199254740992))%Q).
      { setoid_replace (pow2 (ilog2 x) * (1 # 4503599627370496) * (1 # 2))%Q
          with (pow2 (ilog2 x) * (1 # 9007199254740992))%Q by ring.
        apply Qmult_le_compat_r; [exact Hl | discriminate]. }
      lra.
  - assert (Hx0 : (x == 0)%Q) by lra.
    unfold fl. destruct (Qcompare_spec x 0) as [E|E|E]; lra.
Qed.

Lemma number_below_one (r : Q) :
  is_number r -> (0 <= r)%Q -> (r < 1)%Q -> (r <= 1 - (1 # 9007199254740992))%Q.
Proof.
  intros (m & e & Hr & Hm & He) H0 H1.
  pose proof (pow2_pos e) as Hp.
  destruct (Z_le_gt_dec (-53) e) as [Hbig|Hsmall].
  - assert (Hk : (r * inject_Z (2 ^ 53) == inject_Z (m * 2 ^ (e + 53)))%Q).
    { rewrite Hr, inject_Z_mult, <- (pow2_Z (e + 53)) by lia.
      rewrite pow2_add, (pow2_Z 53) by lia. ring. }
    assert (Hlt : m * 2 ^ (e + 53) < 2 ^ 53).
    { rewrite Zlt_Qlt, <- Hk.
      setoid_replace (inject_Z (2 ^ 53)) with (1 * inject_Z (2 ^ 53))%Q at 2
        by ring.
      apply Qmult_lt_compat_r; [reflexivity | exact H1]. }
    assert (Hle : (inject_Z (m * 2 ^ (e + 53)) <= inject_Z (2 ^ 53 - 1))%Q)
      by (rewrite <- Zle_Qle; lia).
    rewrite <- Hk in Hle.
    change (inject_Z (2 ^ 53 - 1)) with (9007199254740991 # 1)%Q in Hle.
    change (inject_Z (2 ^ 53)) with (9007199254740992 # 1)%Q in Hle.
    lra.
  - assert (Hpe : (pow2 e <= pow2 (-54))%Q) by (apply pow2_le; lia).
    assert (Hm' : (inject_Z m <= inject_Z (2 ^ 53))%Q)
      by (rewrite <- Zle_Qle; lia).
    assert (Hr' : (r <= inject_Z (2 ^ 53) * pow2 (-54))%Q).
    { rewrite Hr. apply Qle_trans with (inject_Z (2 ^ 53) * pow2 e)%Q.
      - apply Qmult_le_compat_r; [exact Hm' | lra].
      - rewrite !(Qmult_comm (inject_Z (2 ^ 53))).
        apply Qmult_le_compat_r; [exact Hpe | discriminate]. }
    assert (Hh : (inject_Z (2 ^ 53) * pow2 (-54)
                  <= 1 - (1 # 9007199254740992))%Q)
      by (vm_compute; discriminate).
    lra.
Qed.

(** A Number above 1/2 is a multiple of [2^-53]. *)
Lemma number_grid (r : Q) :
  is_number r ->
  (r <= 1 # 2)%Q \/ exists k, (r == inject_Z k * (1 # 9007199254740992))%Q.
Proof.
  intros (m & e & Hr & Hm & He).
  pose proof (pow2_pos e) as Hp.
  destruct (Z_le_gt_dec (-53) e) as [Hbig|Hsmall].
  - right. exists (m * 2 ^ (e + 53)).
    rewrite Hr, inject_Z_mult, <- (pow2_Z (e + 53)) by lia.
    replace e with (e + 53 + -53) at 1 by lia.
    rewrite (pow2_add (e + 53) (-53)).
    change (pow2 (-53)) with (1 # 9007199254740992)%Q. ring.
  - left.
    assert (Hpe : (pow2 e <= pow2 (-54))%Q) by (apply pow2_le; lia).
    assert (Hm' : (inject_Z m <= inject_Z (2 ^ 53))%Q)
      by (rewrite <- Zle_Qle; lia).
    rewrite Hr. apply Qle_trans with (inject_Z (2 ^ 53) * pow2 e)%Q.
    + apply Qmult_le_compat_r; [exact Hm' | lra].
    + apply Qle_trans with (inject_Z (2 ^ 53) * pow2 (-54))%Q.
      * rewrite !(Qmult_comm (inject_Z (2 ^ 53))).
        apply Qmult_le_compat_r; [exact Hpe | discriminate].
      * vm_compute. discriminate.
Qed.

(** The literals against the decimals they stand for.  No Number lies
    between 9/10 and the Number 0.9, so the second comparison is the one
    with 9/10; the Number 0.6 is the one Number for which the first
    comparison differs from the one with 6/10. *)
Lemma thresholds_read (r : Q) :
  is_number r ->
  ((r < fl 0.9)%Q <-> (r < 9 # 10)%Q)
  /\ ((r < fl 0.6)%Q <-> (r < 6 # 10)%Q /\ ~ (r == fl 0.6)%Q).
Proof.
  intros Hr.
  assert (H6 : (fl 0.6 == 5404319552844595 # 9007199254740992)%Q)
    by (vm_compute; reflexivity).
  assert (H9 : (fl 0.9 == 8106479329266893 # 9007199254740992)%Q)
    by (vm_compute; reflexivity).
  rewrite H6, H9.
  destruct (number_grid r Hr) as [Hsmall|[k Hk]].
  - split; split; lra.
  - rewrite Hk. unfold Qlt, Qeq. cbn [Qnum Qden Qmult inject_Z].
    split; split; lia.
Qed.

(** [Math.floor(r * n)] is one of [0 .. n-1] for a Number [r] of [0, 1). *)
Lemma floor_scale_range (r : Q) (n : Z) :
  is_number r -> (0 <= r)%Q -> (r < 1)%Q -> 0 < n ->
  0 <= Qfloor (fl (r * inject_Z n)) < n.
Proof.
  intros Hr H0 H1 Hn.
  assert (Hq : (1 <= inject_Z n)%Q)
    by (change 1%Q with (inject_Z 1); rewrite <- Zle_Qle; lia).
  pose proof (number_below_one r Hr H0 H1) as Hb.
  assert (Hx : (0 <= r * inject_Z n)%Q)
    by (apply Qmult_le_0_compat; lra).
  split.
  - change 0 with (Qfloor 0). apply Qfloor_resp_le. now apply fl_nonneg.
  - rewrite Zlt_Qlt.
    apply Qle_lt_trans with (fl (r * inject_Z n)); [apply Qfloor_le|].
    apply fl_below; [exact Hx | exact Hq |].
    rewrite (Qmult_comm (inject_Z n)).
    apply Qmult_le_compat_r; [exact Hb | lra].
Qed.

(** ** Loops *)

Section Loops.

Context {A : Type}.
Variable h : Host.t.

Lemma for_push_from_length (body : Z -> Eff A) :
  forall iters i c, length (fst (for_push_from i iters body h c)) = iters.
Proof.
  induction iters as [|k IH]; intros i c; simpl.
  - reflexivity.
  - unfold bind. destruct (body i h c) as [x c1].
    specialize (IH (i + 1) c1).
    destruct (for_push_from (i + 1) k body h c1) as [xs c2].
    simpl in *. now rewrite IH.
Qed.

(** What every iteration guarantees, every pushed element has. *)
Lemma for_push_from_Forall (P : A -> Prop) (body : Z -> Eff A) :
  (forall i c, P (fst (body i h c))) ->
  forall iters i c, Forall P (fst (for_push_from i iters body h c)).
Proof.
  intros Hbody. induction iters as [|k IH]; intros i c; simpl.
  - constructor.
  - unfold bind. pose proof (Hbody i c) as Hx.
    destruct (body i h c) as [x c1].
    specialize (IH (i + 1) c1).
    destruct (for_push_from (i + 1) k body h c1) as [xs c2].
    simpl in *. now constructor.
Qed.

Lemma for_push_nonpositive (body : Z -> Eff A) n c :
  n <= 0 -> for_push n body h c = ([], c).
Proof.
  intros Hn. unfold for_push.
  replace (Z.to_nat n) with O by lia. reflexivity.
Qed.

End Loops.

(** ** Random integers and array reads *)

Lemma Qltb_lt (x y : Q) : Qltb x y = true <-> (x < y)%Q.
Proof. unfold Qltb, Qlt. apply Z.ltb_lt. Qed.

Lemma Qltb_ge (x y : Q) : Qltb x y = false <-> (y <= x)%Q.
Proof. unfold Qltb, Qle. apply Z.ltb_ge. Qed.

Lemma random_floor_run n h c :
  random_floor n h c
  = (Qfloor (fl (random h (draws c) * inject_Z n)),
     at_ (S (draws c)) (reads c)).
Proof. reflexivity. Qed.

Lemma draw_range h k n :
  in_unit_interval h -> 0 < n ->
  0 <= Qfloor (fl (random h k * inject_Z n)) < n.
Proof.
  intros Hh Hn. destruct (Hh k) as (Hr & H0 & H1).
  now apply floor_scale_range.
Qed.

Lemma random_floor_range h c n :
  in_unit_interval h -> 0 < n ->
  0 <= fst (random_floor n h c) < n.
Proof.
  intros Hh Hn. rewrite random_floor_run. cbn [fst].
  now apply draw_range.
Qed.

Lemma js_index_in_range {A} (arr : list A) (k : Z) :
  0 <= k < Z.of_nat (length arr) ->
  exists x, js_index arr k = Some x /\ In x arr.
Proof.
  intros [Hlo Hhi]. unfold js_index.
  destruct (k <? 0) eqn:E; [apply Z.ltb_lt in E; lia|].
  destruct (nth_error arr (Z.to_nat k)) as [x|] eqn:Hx.
  - exists x. split; [reflexivity | eapply nth_error_In; eassumption].
  - apply nth_error_None in Hx. lia.
Qed.

(** A random element of a non-empty array is one of its elements. *)
Lemma random_pick_in h c (arr : list string) :
  in_unit_interval h -> arr <> [] ->
  exists x,
    js_index arr (fst (random_floor (Z.of_nat (length arr)) h c)) = Some x
    /\ In x arr.
Proof.
  intros Hh Hne. apply js_index_in_range.
  apply random_floor_range; [exact Hh|].
  destruct arr; [congruence | simpl; lia].
Qed.

(** The Number [fl q], by evaluation. *)
Ltac number_by_evaluation q :=
  let v := eval vm_compute in (Qred (fl q)) in
  lazymatch v with
  | Qmake ?a ?d =>
      let j := eval vm_compute in (Z.log2 (Zpos d)) in
      exists a, (- j);
      split; [vm_compute; reflexivity | split; [reflexivity | lia]]
  end.

Lemma host_cycle_unit : in_unit_interval host_cycle.
Proof.
  intros n. unfold host_cycle. cbn [random].
  pose proof (Nat.mod_upper_bound n 10 ltac:(discriminate)) as Hk.
  revert Hk. generalize (n mod 10)%nat. intros k Hk.
  do 10 (destruct k as [|k];
         [split;
          [match goal with |- is_number (fl ?q) => number_by_evaluation q end
          |split; [vm_compute; discriminate | vm_compute; reflexivity]]|]).
  lia.
Qed.

Lemma host_half_unit : in_unit_interval host_half.
Proof.
  intros n. unfold host_half. cbn [random]. split.
  - exists 1, (-1). split; [reflexivity | split; [reflexivity | lia]].
  - split; [discriminate | reflexivity].
Qed.

(** ** The log generator: the shape of its result *)

Lemma bind_run {A B} (m : Eff A) (k : A -> Eff B) h c :
  bind m k h c = k (fst (m h c)) h (snd (m h c)).
Proof. unfold bind. now destruct (m h c). Qed.

(** The callback only ever appends to its accumulator. *)
Lemma logsOfSample_acc acc traffic h c :
  logsOfSample acc traffic h c
  = (acc ++ fst (logsOfSample [] traffic h c),
     snd (logsOfSample [] traffic h c)).
Proof.
  destruct traffic as [t|]; simpl.
  - now rewrite !bind_run.
  - unfold ret. simpl. now rewrite app_nil_r.
Qed.

Lemma logsOfSample_length acc traffic h c :
  length (fst (logsOfSample acc traffic h c))
  = (length acc + emitted traffic)%nat.
Proof.
  destruct traffic as [t|]; simpl.
  - rewrite bind_run. simpl. rewrite length_app. f_equal.
    apply for_push_from_length.
  - lia.
Qed.

Lemma reduce_logs_acc samples : forall acc h c,
  reduce logsOfSample samples acc h c
  = (acc ++ fst (newLogs samples h c), snd (newLogs samples h c)).
Proof.
  unfold newLogs.
  induction samples as [|x rest IH]; intros acc h c; simpl.
  - unfold ret. simpl. now rewrite app_nil_r.
  - rewrite !bind_run.
    rewrite (logsOfSample_acc acc x h c). simpl.
    rewrite (IH (acc ++ _)).
    rewrite (IH (fst (logsOfSample [] x h c))). simpl.
    now rewrite app_assoc.
Qed.

Lemma newLogs_cons x rest h c :
  newLogs (x :: rest) h c
  = (fst (logsOfSample [] x h c)
       ++ fst (newLogs rest h (snd (logsOfSample [] x h c))),
     snd (newLogs rest h (snd (logsOfSample [] x h c)))).
Proof.
  unfold newLogs at 1. simpl. rewrite bind_run. apply reduce_logs_acc.
Qed.

Lemma newLogs_length samples : forall h c,
  length (fst (newLogs samples h c)) = list_sum (map emitted samples).
Proof.
  induction samples as [|x rest IH]; intros h c.
  - reflexivity.
  - rewrite newLogs_cons. simpl. rewrite length_app, IH.
    now rewrite logsOfSample_length.
Qed.

(** A property of every entry the inner loop can push holds of every new
    entry. *)
Lemma newLogs_Forall (P : LogEntry -> Prop) h :
  (forall traffic c, P (fst (logEntry traffic h c))) ->
  forall samples c, Forall P (fst (newLogs samples h c)).
Proof.
  intros Hbody.
  induction samples as [|x rest IH]; intros c.
  - constructor.
  - rewrite newLogs_cons. simpl. apply Forall_app. split; [|apply IH].
    destruct x as [t|]; simpl; [|constructor].
    rewrite bind_run. simpl.
    apply for_push_from_Forall. intros _ c'. apply Hbody.
Qed.

Lemma generateLogData_run samples existing h c :
  generateLogData samples existing h c
  = (match existing with Some l => l | None => [] end
       ++ fst (newLogs samples h c),
     snd (newLogs samples h c)).
Proof. unfold generateLogData. now rewrite bind_run. Qed.

(** A null sample changes neither the accumulator nor the host. *)
Lemma reduce_skips_null before after : forall acc h c,
  reduce logsOfSample (before ++ None :: after) acc h c
  = reduce logsOfSample (before ++ after) acc h c.
Proof.
  induction before as [|x rest IH]; intros acc h c; simpl.
  - reflexivity.
  - rewrite !bind_run. apply IH.
Qed.

Lemma wellFormed_emitted traffic :
  wellFormed traffic = true -> Z.of_nat (emitted traffic) = requested traffic.
Proof.
  destruct traffic as [[tm [i|] [o|]]|]; simpl; try discriminate.
  intros H. apply andb_prop in H as [Hi Ho].
  apply Z.leb_le in Hi, Ho. lia.
Qed.

Lemma logsOfSample_zeroFilled acc t :
  logsOfSample acc (Some (zeroFilled t)) = logsOfSample acc (Some t).
Proof. destruct t as [tm [i|] [o|]]; reflexivity. Qed.

Lemma reduce_zeroFilled before t after : forall acc h c,
  reduce logsOfSample (before ++ Some (zeroFilled t) :: after) acc h c
  = reduce logsOfSample (before ++ Some t :: after) acc h c.
Proof.
  induction before as [|x rest IH]; intros acc h c; cbn [app reduce].
  - now rewrite logsOfSample_zeroFilled.
  - rewrite !bind_run. apply IH.
Qed.

(** ** The log generator: claims *)

Lemma for_push_from_starts {A} (body : Eff A) h : forall iters i c,
  for_push_from i iters (fun _ => body) h c
  = (map (fun ck => fst (body h ck)) (starts body h iters c),
     finish body h iters c).
Proof.
  induction iters as [|n IH]; intros i c.
  - reflexivity.
  - cbn [for_push_from starts finish map]. rewrite !bind_run, IH.
    reflexivity.
Qed.

Lemma starts_length {A} (body : Eff A) h : forall n c,
  length (starts body h n c) = n.
Proof.
  induction n as [|k IH]; intros c; cbn [starts length];
    [reflexivity | now rewrite IH].
Qed.

Lemma logsOfSample_starts t h c :
  logsOfSample [] (Some t) h c
  = (map (madeBy h)
         (map (pair t) (starts (logEntry t) h (emitted (Some t)) c)),
     finish (logEntry t) h (emitted (Some t)) c).
Proof.
  cbn [logsOfSample]. rewrite bind_run. unfold for_push.
  rewrite for_push_from_starts. cbn [ret fst snd app emitted].
  now rewrite map_map.
Qed.

(** The new entries are the ones the iterations make, in their order. *)
Lemma newLogs_iterations samples h : forall c,
  fst (newLogs samples h c) = map (madeBy h) (iterations samples h c).
Proof.
  induction samples as [|x rest IH]; intros c.
  - reflexivity.
  - rewrite newLogs_cons. cbn [fst]. destruct x as [t|].
    + rewrite logsOfSample_starts. cbn [fst snd iterations].
      now rewrite map_app, IH.
    + cbn [logsOfSample ret fst snd app iterations]. apply IH.
Qed.

Lemma iterations_length samples h c :
  length (iterations samples h c) = list_sum (map emitted samples).
Proof.
  rewrite <- (length_map (madeBy h)), <- newLogs_iterations.
  apply newLogs_length.
Qed.

(** C1 (as the code has it): the list returned by [generateLogData] is the
    existing history, in its order, followed by all the newly generated
    entries: the entries made by the iterations of the inner loop, one per
    unit of volume of every non-null sample, in the order in which the loop
    makes them.  Every old entry keeps its position, and the [j]-th new
    entry stands at position [length existing + j].  The new entries are
    appended, not prepended. *)
Theorem generateLogData_appends samples existing h c :
  let result := fst (generateLogData samples (Some existing) h c) in
  let fresh := map (madeBy h) (iterations samples h c) in
  result = existing ++ fresh
  /\ length fresh = list_sum (map emitted samples)
  /\ (forall i e, nth_error existing i = Some e -> nth_error result i = Some e)
  /\ (forall j e,
         nth_error fresh j = Some e ->
         nth_error result (length existing + j) = Some e).
Proof.
  intros result fresh.
  assert (Hres : result = existing ++ fresh).
  { unfold result, fresh. rewrite generateLogData_run. cbn [fst].
    now rewrite newLogs_iterations. }
  rewrite Hres. split; [reflexivity|]. split; [|split].
  - unfold fresh. rewrite length_map. apply iterations_length.
  - intros i e Hi. rewrite nth_error_app1; [exact Hi|].
    apply nth_error_Some. congruence.
  - intros j e Hj. rewrite nth_error_app2 by lia.
    now replace (length existing + j - length existing)%nat with j by lia.
Qed.

(** C1 as stated fails: with one sample of volume 1 and a history of one
    entry, the result is not the new entry followed by the history. *)
Lemma generateLogData_not_prepended :
  fst (generateLogData [Some sample_one] (Some [old_entry]) host_half boot)
  <> fst (generateLogData [Some sample_one] (Some []) host_half boot)
       ++ [old_entry].
Proof.
  intros H. apply (f_equal (map timestamp)) in H.
  vm_compute in H. discriminate H.
Qed.

(** C2: for well-formed samples the result has [inbound + outbound] new
    entries per sample on top of the existing history, each sample adding
    exactly its [inbound + outbound] entries to the accumulator; one sample
    with inbound 3 and outbound 2 on an empty history gives 5 entries. *)
Theorem generateLogData_count h c :
  (forall samples existing,
      forallb wellFormed samples = true ->
      Z.of_nat (length (fst (generateLogData samples (Some existing) h c)))
      = Z.of_nat (length existing)
        + fold_right Z.add 0 (map requested samples))
  /\ (forall acc tm i o,
         0 <= i -> 0 <= o ->
         exists logs,
           fst (logsOfSample acc (Some (mkSample tm (Some i) (Some o))) h c)
           = acc ++ logs
           /\ Z.of_nat (length logs) = i + o)
  /\ (forall tm,
         length (fst (generateLogData
                        [Some (mkSample tm (Some 3) (Some 2))] (Some []) h c))
         = 5%nat).
Proof.
  split; [|split].
  - intros samples existing Hwf.
    rewrite generateLogData_run. simpl.
    rewrite length_app, newLogs_length, Nat2Z.inj_add. f_equal.
    induction samples as [|x rest IH]; [reflexivity|].
    simpl in *. apply andb_prop in Hwf as [Hx Hrest].
    rewrite Nat2Z.inj_add, IH by exact Hrest.
    now rewrite wellFormed_emitted.
  - intros acc tm i o Hi Ho.
    rewrite logsOfSample_acc. cbn [fst]. eexists. split; [reflexivity|].
    rewrite logsOfSample_length. simpl. lia.
  - intros tm. rewrite generateLogData_run. simpl.
    now rewrite newLogs_length.
Qed.

Lemma generateLogData_count_witness :
  forallb wellFormed
    [Some (mkSample (Some 10) (Some 3) (Some 2));
     Some (mkSample None (Some 0) (Some 4))] = true
  /\ Z.of_nat (length (fst (generateLogData
        [Some (mkSample (Some 10) (Some 3) (Some 2));
         Some (mkSample None (Some 0) (Some 4))]
        (Some [old_entry]) host_cycle boot)))
     = 1 + 9.
Proof.
  split; [reflexivity|].
  apply (proj1 (generateLogData_count host_cycle boot)
           [Some (mkSample (Some 10) (Some 3) (Some 2));
            Some (mkSample None (Some 0) (Some 4))] [old_entry]).
  reflexivity.
Defined.

(** C8: with no samples the result is the existing history, unchanged, and
    the host is not consulted. *)
Theorem generateLogData_no_samples existing h c :
  generateLogData [] (Some existing) h c = (existing, c).
Proof.
  rewrite generateLogData_run. simpl. now rewrite app_nil_r.
Qed.

(** C9: a null sample anywhere in the list is skipped: the call returns,
    with the same result and the same host state as on the list without
    it. *)
Theorem generateLogData_skips_null before after existing h c :
  generateLogData (before ++ None :: after) existing h c
  = generateLogData (before ++ after) existing h c.
Proof.
  unfold generateLogData, newLogs. rewrite !bind_run.
  now rewrite reduce_skips_null.
Qed.

(** C10: a sample with a missing volume is treated as the same sample with
    [0] in that field, wherever it stands in the list; alone, it yields as
    many entries as its other volume says, and none when both are missing. *)
Theorem generateLogData_missing_volume h c :
  (forall before t after existing,
      generateLogData (before ++ Some t :: after) existing h c
      = generateLogData (before ++ Some (zeroFilled t) :: after) existing h c)
  /\ (forall tm v existing,
         0 <= v ->
         Z.of_nat (length (fst (generateLogData
                    [Some (mkSample tm None (Some v))] (Some existing) h c)))
         = Z.of_nat (length existing) + v
         /\ Z.of_nat (length (fst (generateLogData
                    [Some (mkSample tm (Some v) None)] (Some existing) h c)))
            = Z.of_nat (length existing) + v)
  /\ (forall tm existing,
         fst (generateLogData [Some (mkSample tm None None)]
                (Some existing) h c) = existing).
Proof.
  split; [|split].
  - intros before t after existing.
    unfold generateLogData, newLogs. rewrite !bind_run.
    now rewrite reduce_zeroFilled.
  - intros tm v existing Hv.
    rewrite !generateLogData_run. simpl.
    rewrite !length_app, !newLogs_length. simpl. split; lia.
  - intros tm existing. rewrite generateLogData_run. simpl.
    apply app_nil_r.
Qed.

Lemma generateLogData_missing_volume_witness :
  0 <= 4
  /\ Z.of_nat (length (fst (generateLogData
        [Some (mkSample (Some 10) None (Some 4))] (Some [old_entry])
        host_cycle boot))) = 1 + 4
  /\ Z.of_nat (length (fst (generateLogData
        [Some (mkSample (Some 10) (Some 4) None)] (Some [old_entry])
        host_cycle boot))) = 1 + 4.
Proof.
  split; [lia|].
  apply (proj1 (proj2 (generateLogData_missing_volume host_cycle boot))
           (Some 10) 4 [old_entry]).
  lia.
Defined.

(** ** Classification *)

Lemma normal_not_malicious : ~ In type_normal maliciousTypes.
Proof. simpl. intuition discriminate. Qed.

Lemma novel_not_malicious : ~ In type_novel maliciousTypes.
Proof. simpl. intuition discriminate. Qed.

Lemma thresholds_ordered : (fl 0.6 < fl 0.9)%Q.
Proof. vm_compute. reflexivity. Qed.

Lemma pickType_classified h c :
  in_unit_interval h ->
  classifiedBy (random h (draws c)) (fst (pickType h c)).
Proof.
  intros Hh. unfold pickType. rewrite bind_run.
  change (fst (Math_random h c)) with (random h (draws c)).
  set (r := random h (draws c)).
  destruct (Qltb r (fl 0.6)) eqn:E1; [|destruct (Qltb r (fl 0.9)) eqn:E2].
  - apply Qltb_lt in E1. cbn [ret fst].
    split; [|split]; split.
    + intros _. exact E1.
    + reflexivity.
    + intros (m & Hin & Heq). injection Heq as <-.
      now apply normal_not_malicious in Hin.
    + intros [Hge _]. now apply Qle_not_lt in Hge.
    + intros Heq. discriminate Heq.
    + intros Hge. apply Qle_not_lt in Hge. elim Hge.
      apply Qlt_trans with (fl 0.6); [exact E1 | exact thresholds_ordered].
  - apply Qltb_ge in E1. apply Qltb_lt in E2.
    rewrite bind_run.
    destruct (random_pick_in h (snd (Math_random h c)) maliciousTypes Hh)
      as (x & Hx & Hin); [discriminate|].
    cbn [ret fst]. rewrite Hx.
    split; [|split]; split.
    + intros Heq. injection Heq as ->.
      now apply normal_not_malicious in Hin.
    + intros Hlt. now apply Qle_not_lt in E1.
    + intros _. now split.
    + intros _. now exists x.
    + intros Heq. injection Heq as ->.
      now apply novel_not_malicious in Hin.
    + intros Hge. now apply Qle_not_lt in Hge.
  - apply Qltb_ge in E1, E2. cbn [ret fst].
    split; [|split]; split.
    + intros Heq. discriminate Heq.
    + intros Hlt. now apply Qle_not_lt in E1.
    + intros (m & Hin & Heq). injection Heq as <-.
      now apply novel_not_malicious in Hin.
    + intros [_ Hlt]. now apply Qle_not_lt in E2.
    + intros _. exact E2.
    + reflexivity.
Qed.

(** The type of an entry is the one picked first in its iteration. *)
Lemma logEntry_type traffic h c :
  type (fst (logEntry traffic h c)) = fst (pickType h c).
Proof.
  unfold logEntry. rewrite bind_run.
  destruct (time traffic); repeat (rewrite bind_run); reflexivity.
Qed.

(** C3: the entries a call produces are the ones made by the iterations of
    the inner loop, one per unit of volume of every non-null sample, and
    the first number [r] an iteration draws fixes the type of its entry:
    normal exactly when [r < 0.6], one of the nine malicious types exactly
    when [0.6 <= r < 0.9], the new-pattern type exactly when [0.9 <= r],
    where [0.6] and [0.9] are the Numbers these literals denote.  The two
    thresholds are the Numbers of the running sums of the weights 0.6, 0.3
    and 0.1, which add up to 1. *)
Theorem generateLogData_classification h c samples :
  in_unit_interval h ->
  let runs := iterations samples h c in
  fst (generateLogData samples None h c) = map (madeBy h) runs
  /\ length runs = list_sum (map emitted samples)
  /\ Forall (fun it => classifiedBy (firstDraw h it) (type (madeBy h it)))
            runs
  /\ length maliciousTypes = 9%nat
  /\ (fl 0.6 == fl weight_normal)%Q
  /\ (fl 0.9 == fl (weight_normal + weight_malicious))%Q
  /\ (weight_normal + weight_malicious + weight_novel == 1)%Q.
Proof.
  intros Hh runs. split; [|split; [|split]].
  - rewrite generateLogData_run. cbn [fst app]. apply newLogs_iterations.
  - apply iterations_length.
  - apply Forall_forall. intros [t ck] _. unfold madeBy, firstDraw.
    cbn [fst snd]. rewrite logEntry_type. now apply pickType_classified.
  - split; [reflexivity|]. split; [reflexivity|].
    split; [vm_compute; reflexivity | reflexivity].
Qed.

Lemma generateLogData_classification_witness :
  in_unit_interval host_cycle
  /\ fst (generateLogData [Some (mkSample (Some 5) (Some 3) (Some 1))] None
            host_cycle (at_ 9 0))
     = map (madeBy host_cycle)
           (iterations [Some (mkSample (Some 5) (Some 3) (Some 1))]
              host_cycle (at_ 9 0))
  /\ length (iterations [Some (mkSample (Some 5) (Some 3) (Some 1))]
               host_cycle (at_ 9 0)) = 4%nat
  /\ Forall (fun it =>
               classifiedBy (firstDraw host_cycle it)
                            (type (madeBy host_cycle it)))
            (iterations [Some (mkSample (Some 5) (Some 3) (Some 1))]
               host_cycle (at_ 9 0)).
Proof.
  split; [exact host_cycle_unit|].
  pose proof (generateLogData_classification host_cycle (at_ 9 0)
                [Some (mkSample (Some 5) (Some 3) (Some 1))]
                host_cycle_unit) as (Hruns & Hlen & Hall & _).
  split; [exact Hruns|]. split; [exact Hlen | exact Hall].
Defined.

(** With the draws 0.9, 0.2, 0.5 and 0.8 at the head of the four
    iterations, a sample of volume 4 gives a new-pattern entry, two normal
    ones and a malicious one. *)
Example generateLogData_four_types :
  map (firstDraw host_cycle)
      (iterations [Some (mkSample (Some 5) (Some 3) (Some 1))]
         host_cycle (at_ 9 0))
  = [fl 0.9; fl 0.2; fl 0.5; fl 0.8]
  /\ map type
       (fst (generateLogData [Some (mkSample (Some 5) (Some 3) (Some 1))]
               None host_cycle (at_ 9 0)))
     = [Some type_novel; Some type_normal; Some type_normal;
        nth_error maliciousTypes 8].
Proof. split; vm_compute; reflexivity. Qed.

(** At a draw equal to the Number 0.6, which lies below 6/10, the
    comparison with the literal fails: the entry is malicious, its subtype
    is picked with a second draw, and the iteration spends 14 draws. *)
Example logEntry_at_threshold :
  let run := logEntry (mkSample (Some 5) (Some 3) (Some 1))
               host_threshold (at_ 0 0) in
  (random host_threshold 0 < 6 # 10)%Q
  /\ type (fst run) = nth_error maliciousTypes 5
  /\ draws (snd run) = 14%nat.
Proof. vm_compute. repeat split; reflexivity. Qed.

(** ** The traffic generator *)

Lemma trafficSample_loop h now count : forall iters i c,
  for_push_from i iters (trafficSample now count) h c
  = (map (fun k =>
            mkSample
              (Some (now - (count - 1 - (i + Z.of_nat k)) * 2000))
              (Some (Qfloor (fl (random h (draws c + 2 * k) * 30))))
              (Some (Qfloor (fl (random h (draws c + 2 * k + 1) * 30)))))
         (seq 0 iters),
     at_ (draws c + 2 * iters) (reads c)).
Proof.
  induction iters as [|n IH]; intros i c.
  - simpl. unfold ret. destruct c as [d r]. simpl.
    now rewrite Nat.add_0_r.
  - cbn [for_push_from]. rewrite !bind_run.
    rewrite IH. cbn [fst snd ret].
    unfold trafficSample. rewrite !bind_run, !random_floor_run.
    cbn [fst snd ret draws reads].
    cbn [seq]. rewrite <- seq_shift. cbn [map]. rewrite map_map.
    unfold ret. change (inject_Z 30) with 30%Q.
    rewrite Z.add_0_r, Nat.mul_0_r, !Nat.add_0_r.
    replace (draws c + 1)%nat with (S (draws c)) by lia.
    replace (draws c + 2 * S n)%nat with (S (S (draws c)) + 2 * n)%nat by lia.
    f_equal. f_equal.
    apply map_ext. intros k.
    replace (i + 1 + Z.of_nat k) with (i + Z.of_nat (S k)) by lia.
    replace (S (S (draws c)) + 2 * k)%nat with (draws c + 2 * S k)%nat by lia.
    reflexivity.
Qed.

Lemma generateTrafficData_run count h c :
  let n := match count with Some n => n | None => 30 end in
  generateTrafficData count h c
  = (map (sampleAt h c n) (seq 0 (Z.to_nat n)),
     at_ (draws c + 2 * Z.to_nat n) (S (reads c))).
Proof.
  intros n. unfold generateTrafficData. fold n.
  rewrite bind_run. unfold for_push. rewrite trafficSample_loop.
  reflexivity.
Qed.

Lemma generateTrafficData_nth count h c k :
  let n := match count with Some n => n | None => 30 end in
  (k < Z.to_nat n)%nat ->
  nth_error (fst (generateTrafficData count h c)) k
  = Some (sampleAt h c n k).
Proof.
  intros n Hk. rewrite generateTrafficData_run. fold n. cbn [fst].
  apply map_nth_error. rewrite nth_error_seq.
  apply Nat.ltb_lt in Hk. now rewrite Hk.
Qed.

Lemma generateTrafficData_length count h c :
  length (fst (generateTrafficData count h c))
  = Z.to_nat (match count with Some n => n | None => 30 end).
Proof.
  rewrite generateTrafficData_run. cbn [fst].
  now rewrite length_map, length_seq.
Qed.

(** C5: a call with [count >= 0] returns exactly [count] samples; the time
    of a later sample exceeds that of an earlier one by 2000 ms per
    position, so the times increase strictly in steps of exactly 2000; the
    last sample carries the clock reading of the call.  An omitted count is
    30, and a count at or below zero gives the empty list. *)
Theorem generateTrafficData_timeline h c :
  (forall count,
      0 <= count ->
      let data := fst (generateTrafficData (Some count) h c) in
      Z.of_nat (length data) = count
      /\ (forall j k s s',
             (j < k)%nat ->
             nth_error data j = Some s -> nth_error data k = Some s' ->
             exists t t',
               time s = Some t /\ time s' = Some t'
               /\ t' = t + 2000 * Z.of_nat (k - j) /\ t < t')
      /\ (0 < count ->
          exists s,
            nth_error data (length data - 1) = Some s
            /\ time s = Some (clock h (reads c))))
  /\ generateTrafficData None h c = generateTrafficData (Some 30) h c
  /\ (forall count,
         count <= 0 -> fst (generateTrafficData (Some count) h c) = []).
Proof.
  split; [|split].
  - intros count Hc data.
    assert (Hlen : length data = Z.to_nat count)
      by apply generateTrafficData_length.
    split; [lia|split].
    + intros j k s s' Hjk Hj Hk.
      assert (Hkn : (k < Z.to_nat count)%nat).
      { rewrite <- Hlen. apply nth_error_Some. congruence. }
      unfold data in Hj, Hk.
      rewrite (generateTrafficData_nth (Some count)) in Hj, Hk by lia.
      injection Hj as <-. injection Hk as <-.
      do 2 eexists. split; [reflexivity|]. split; [reflexivity|]. lia.
    + intros Hpos. eexists. split.
      * rewrite Hlen. unfold data.
        apply (generateTrafficData_nth (Some count)). lia.
      * cbn [sampleAt time]. f_equal. lia.
  - unfold generateTrafficData. cbv beta iota zeta. reflexivity.
  - intros count Hc. rewrite generateTrafficData_run. cbn [fst].
    now replace (Z.to_nat count) with O by lia.
Qed.

Lemma generateTrafficData_timeline_witness :
  0 <= 3
  /\ Z.of_nat (length (fst (generateTrafficData (Some 3) host_cycle boot))) = 3
  /\ generateTrafficData None host_cycle boot
     = generateTrafficData (Some 30) host_cycle boot.
Proof.
  pose proof (generateTrafficData_timeline host_cycle boot) as [Hn [Hd _]].
  split; [lia|]. split; [|exact Hd].
  apply (Hn 3). lia.
Defined.

(** C6: the two volumes of the [k]-th sample of a call are the integers
    [Math.floor(r * 30)], the product rounded as the code rounds it, for
    two different draws [r] of that call, the draws number [2k] and
    [2k+1]; with every draw a Number in [0, 1) both lie in [0, 30). *)
Theorem generateTrafficData_volumes h c count k s :
  in_unit_interval h ->
  nth_error (fst (generateTrafficData count h c)) k = Some s ->
  exists i o,
    inbound s = Some i /\ outbound s = Some o
    /\ i = Qfloor (fl (random h (draws c + 2 * k) * 30))
    /\ o = Qfloor (fl (random h (draws c + 2 * k + 1) * 30))
    /\ 0 <= i < 30 /\ 0 <= o < 30.
Proof.
  intros Hh Hs.
  assert (Hk : (k < length (fst (generateTrafficData count h c)))%nat)
    by (apply nth_error_Some; congruence).
  rewrite generateTrafficData_length in Hk.
  rewrite generateTrafficData_nth in Hs by exact Hk.
  injection Hs as <-. do 2 eexists.
  split; [reflexivity|]. split; [reflexivity|].
  split; [reflexivity|]. split; [reflexivity|].
  split; apply (draw_range h _ 30 Hh); lia.
Qed.

Lemma generateTrafficData_volumes_witness :
  in_unit_interval host_cycle
  /\ nth_error (fst (generateTrafficData (Some 3) host_cycle boot)) 1
     = Some (sampleAt host_cycle boot 3 1)
  /\ exists i o,
       inbound (sampleAt host_cycle boot 3 1) = Some i
       /\ outbound (sampleAt host_cycle boot 3 1) = Some o
       /\ i = Qfloor (fl (random host_cycle (draws boot + 2 * 1) * 30))
       /\ o = Qfloor (fl (random host_cycle (draws boot + 2 * 1 + 1) * 30))
       /\ 0 <= i < 30 /\ 0 <= o < 30.
Proof.
  assert (Hs : nth_error (fst (generateTrafficData (Some 3) host_cycle boot)) 1
               = Some (sampleAt host_cycle boot 3 1))
    by (apply (generateTrafficData_nth (Some 3)); vm_compute; lia).
  split; [exact host_cycle_unit|]. split; [exact Hs|].
  exact (generateTrafficData_volumes host_cycle boot (Some 3) 1 _
           host_cycle_unit Hs).
Defined.

(** ** The flow generator *)

(** C7: a call returns exactly 50 pairs; the country list has 10 distinct
    codes, and with every draw in [0, 1) both codes of every pair are on
    it. *)
Theorem generateFlowData_pairs h c :
  length (fst (generateFlowData h c)) = 50%nat
  /\ length countries = 10%nat
  /\ NoDup countries
  /\ (in_unit_interval h ->
      Forall (fun f =>
                exists s e,
                  start f = Some s /\ end_ f = Some e
                  /\ In s countries /\ In e countries)
             (fst (generateFlowData h c))).
Proof.
  split; [apply for_push_from_length|].
  split; [reflexivity|]. split.
  - repeat (constructor; [simpl; intuition discriminate|]). constructor.
  - intros Hh. apply for_push_from_Forall. intros _ c'.
    rewrite !bind_run. cbn [ret fst start end_].
    destruct (random_pick_in h c' countries Hh) as (s & Hs & Hins);
      [discriminate|].
    destruct (random_pick_in h (snd (random_floor 10 h c')) countries Hh)
      as (e & He & Hine); [discriminate|].
    exists s, e. repeat split; assumption.
Qed.

Lemma generateFlowData_pairs_witness :
  in_unit_interval host_cycle
  /\ Forall (fun f =>
               exists s e,
                 start f = Some s /\ end_ f = Some e
                 /\ In s countries /\ In e countries)
            (fst (generateFlowData host_cycle boot)).
Proof.
  split; [exact host_cycle_unit|].
  apply (proj2 (proj2 (proj2 (generateFlowData_pairs host_cycle boot)))).
  exact host_cycle_unit.
Defined.

(** ** The dashboard's buffers *)

Lemma slice_last_length {A} n (arr : list A) :
  (length (slice_last n arr) <= n)%nat.
Proof. unfold slice_last. rewrite length_skipn. lia. Qed.

Lemma slice_last_split {A} n (arr : list A) :
  arr = firstn (length arr - n) arr ++ slice_last n arr.
Proof. unfold slice_last. now rewrite firstn_skipn. Qed.

Lemma forallb_skipn {A} (f : A -> bool) n : forall l,
  forallb f l = true -> forallb f (skipn n l) = true.
Proof.
  induction n as [|n IH]; intros [|x l] H; simpl in *; try assumption.
  apply andb_prop in H as [_ H]. now apply IH.
Qed.

(** The window after a traffic tick: the last 29 old samples and the first
    of the 30 samples just generated. *)
Lemma updateTrafficData_run prevData h c :
  updateTrafficData prevData h c
  = (filter isSample
       (slice_last 29 prevData ++ [Some (sampleAt h c 30 0)]),
     snd (generateTrafficData None h c)).
Proof.
  unfold updateTrafficData. rewrite bind_run.
  unfold js_index. cbn [Z.ltb Z.compare Z.to_nat].
  now rewrite (generateTrafficData_nth None h c 0) by (simpl; lia).
Qed.

Lemma updateLogs_run window prevLogs h c :
  updateLogs window prevLogs h c
  = (let fresh := fst (generateLogData (slice_last 1 window) (Some []) h c) in
     if (0 <? length fresh)%nat
     then slice_first 100 (fresh ++ prevLogs)
     else prevLogs,
     snd (generateLogData (slice_last 1 window) (Some []) h c)).
Proof. unfold updateLogs. now rewrite bind_run. Qed.

Lemma updateLogs_length window prevLogs h c :
  (length prevLogs <= 100)%nat ->
  (length (fst (updateLogs window prevLogs h c)) <= 100)%nat.
Proof.
  intros Hprev. rewrite updateLogs_run. cbn [fst]. cbv zeta.
  destruct (0 <? _)%nat; [|exact Hprev].
  unfold slice_first. apply firstn_le_length.
Qed.

Lemma tick_bounded t d h c : bounded d -> bounded (fst (tick t d h c)).
Proof.
  intros (Hlogs & Hwin & Hok). destruct t; unfold tick;
    rewrite bind_run; cbn [ret fst logs trafficData].
  - split; [exact Hlogs|]. rewrite updateTrafficData_run. cbn [fst]. split.
    + eapply Nat.le_trans; [apply filter_length_le|].
      rewrite length_app. cbn [length].
      pose proof (slice_last_length 29 (trafficData d)). lia.
    + apply forallb_filter.
  - split; [now apply updateLogs_length|]. now split.
Qed.

Lemma run_bounded timers : forall d h c,
  bounded d -> bounded (fst (run timers d h c)).
Proof.
  induction timers as [|t rest IH]; intros d h c Hd; simpl.
  - exact Hd.
  - rewrite bind_run. apply IH. now apply tick_bounded.
Qed.

Lemma mounted_bounded : bounded mounted.
Proof. repeat split; simpl; lia. Qed.

(** C4: whatever the order in which the two timers have fired since the
    dashboard was mounted, the log history holds at most 100 entries and the
    traffic window at most 30.  A log tick puts the new entries in front of
    the history and keeps the first 100, so what it drops is the tail, the
    oldest entries; a traffic tick puts the new sample behind the window and
    drops from its front, the oldest samples; in both cases only what
    exceeds the bound is dropped. *)
Theorem dashboard_retention h c timers :
  let d := fst (run timers mounted h c) in
  let c1 := snd (run timers mounted h c) in
  ((length (logs d) <= 100)%nat /\ (length (trafficData d) <= 30)%nat)
  /\ (let d' := fst (tick LogTimer d h c1) in
      let fresh :=
        fst (generateLogData (slice_last 1 (trafficData d)) (Some []) h c1) in
      exists evicted,
        fresh ++ logs d = logs d' ++ evicted
        /\ length evicted = (length (fresh ++ logs d) - 100)%nat)
  /\ (let d' := fst (tick TrafficTimer d h c1) in
      exists newData evicted,
        nth_error (fst (generateTrafficData None h c1)) 0 = Some newData
        /\ trafficData d ++ [Some newData] = evicted ++ trafficData d'
        /\ length evicted
           = (length (trafficData d ++ [Some newData]) - 30)%nat).
Proof.
  intros d c1.
  destruct (run_bounded timers mounted h c mounted_bounded)
    as (Hlogs & Hwin & Hok).
  fold d in Hlogs, Hwin, Hok.
  split; [now split|]. split.
  - cbv zeta. unfold tick. rewrite bind_run. cbn [ret fst logs].
    rewrite updateLogs_run. cbn [fst]. cbv zeta.
    set (fresh := fst (generateLogData _ _ h c1)).
    destruct (0 <? length fresh)%nat eqn:E.
    + exists (skipn 100 (fresh ++ logs d)). unfold slice_first.
      split; [now rewrite firstn_skipn | apply length_skipn].
    + apply Nat.ltb_ge in E.
      assert (fresh = []) as -> by (destruct fresh; simpl in E; [easy|lia]).
      exists []. cbn [app length]. rewrite app_nil_r. split; [easy|lia].
  - cbv zeta. unfold tick. rewrite bind_run. cbn [ret fst trafficData].
    rewrite updateTrafficData_run. cbn [fst].
    exists (sampleAt h c1 30 0),
      (firstn (length (trafficData d) - 29) (trafficData d)).
    split; [apply (generateTrafficData_nth None); simpl; lia|].
    rewrite forallb_filter_id.
    + split.
      * rewrite app_assoc. f_equal. apply slice_last_split.
      * rewrite length_firstn, length_app. cbn [length]. lia.
    + rewrite forallb_app. apply andb_true_intro. split.
      * now apply forallb_skipn.
      * reflexivity.
Qed.

(** ** The generators on a concrete host *)

Example traffic_times :
  map time (fst (generateTrafficData (Some 3) host_cycle boot))
  = [Some 996000; Some 998000; Some 1000000].
Proof. vm_compute. reflexivity. Qed.

Example traffic_volumes :
  map (fun s => (inbound s, outbound s))
      (fst (generateTrafficData (Some 3) host_cycle boot))
  = [(Some 0, Some 3); (Some 6, Some 9); (Some 12, Some 15)].
Proof. vm_compute. reflexivity. Qed.

Example logs_after_history :
  map timestamp
      (fst (generateLogData [Some sample_one] (Some [old_entry])
              host_half boot))
  = [0; 5].
Proof. vm_compute. reflexivity. Qed.

Example logs_types :
  map type
      (fst (generateLogData
              [Some (mkSample (Some 5) (Some 2) (Some 1)); None;
               Some (mkSample None None (Some 1))]
              None host_cycle (at_ 9 0)))
  = [Some type_novel; Some type_normal; Some type_normal;
     Some "악성(File Inclusion)"%string].
Proof. vm_compute. reflexivity. Qed.

Example window_saturates :
  length (trafficData
            (fst (run (repeat TrafficTimer 40) mounted host_cycle boot)))
  = 30%nat.
Proof. vm_compute. reflexivity. Qed.

Example history_saturates :
  length (logs (fst (run (TrafficTimer :: repeat LogTimer 40)
                       mounted host_cycle boot)))
  = 100%nat.
Proof. vm_compute. reflexivity. Qed.

(** * Further properties of the generators and of their consumers *)

(** ** The fields of a generated log entry *)

Lemma random_floor_cursor n h c :
  snd (random_floor n h c) = at_ (S (draws c)) (reads c).
Proof. reflexivity. Qed.

Lemma randomIP_address h c :
  in_unit_interval h -> isAddress (fst (randomIP h c)).
Proof.
  intros Hh. unfold randomIP. rewrite !bind_run. cbn [ret fst].
  do 4 eexists. unfold isOctet, dottedQuad.
  repeat (split; [apply random_floor_range; [exact Hh | lia]|]).
  reflexivity.
Qed.

Lemma pickType_known h c :
  in_unit_interval h -> isKnownType (fst (pickType h c)).
Proof.
  intros Hh. destruct (pickType_classified h c Hh) as (Hn & Hm & Hv).
  set (r := random h (draws c)) in *.
  destruct (Qlt_le_dec r (fl 0.6)) as [Hlt|Hge].
  - left. now apply Hn.
  - destruct (Qlt_le_dec r (fl 0.9)) as [Hlt9|Hge9].
    + right. right. apply Hm. now split.
    + right. left. now apply Hv.
Qed.

Lemma logEntry_generated traffic h c :
  in_unit_interval h -> isGeneratedEntry (fst (logEntry traffic h c)).
Proof.
  intros Hh. unfold isGeneratedEntry. rewrite logEntry_type.
  unfold logEntry. rewrite !bind_run.
  cbn [ret fst sourceIP sourcePort destinationIP destinationPort protocol
       trafficVolume].
  repeat split;
    try (apply random_floor_range; [exact Hh | lia]);
    try (now apply randomIP_address);
    try (now apply pickType_known).
  apply random_pick_in; [exact Hh | discriminate].
Qed.

Lemma logEntry_timestamp traffic t h c :
  time traffic = Some t -> timestamp (fst (logEntry traffic h c)) = t.
Proof.
  intros Ht. unfold logEntry. rewrite Ht, !bind_run. reflexivity.
Qed.

(** X1: with every draw in [0, 1), each generated entry has two addresses
    that are dotted quads of octets in 0..255, two ports in 0..65535, one of
    the seven protocols, one of the eleven types, and a traffic volume in
    0..999. *)
Theorem generateLogData_entries h c samples :
  in_unit_interval h ->
  Forall isGeneratedEntry (fst (generateLogData samples None h c)).
Proof.
  intros Hh. rewrite generateLogData_run. cbn [fst app].
  apply newLogs_Forall. intros traffic c'. now apply logEntry_generated.
Qed.

Lemma generateLogData_entries_witness :
  in_unit_interval host_cycle
  /\ Forall isGeneratedEntry
       (fst (generateLogData [Some sample_one; None] None host_cycle boot)).
Proof.
  split; [exact host_cycle_unit|].
  apply (generateLogData_entries host_cycle boot [Some sample_one; None]).
  exact host_cycle_unit.
Defined.

(** ** The log generator over several samples *)

Lemma newLogs_app first second h c :
  newLogs (first ++ second) h c
  = (fst (newLogs first h c)
       ++ fst (newLogs second h (snd (newLogs first h c))),
     snd (newLogs second h (snd (newLogs first h c)))).
Proof.
  revert c. induction first as [|x rest IH]; intros c.
  - change (newLogs [] h c) with (@nil LogEntry, c). cbn [app fst snd].
    now destruct (newLogs second h c).
  - cbn [app]. rewrite !newLogs_cons, IH. cbn [fst snd].
    now rewrite app_assoc.
Qed.

(** X2: generating for [first ++ second] is generating for [first] and
    then, from the host state that leaves, for [second] with the first
    result as the existing history. *)
Theorem generateLogData_app first second existing h c :
  generateLogData (first ++ second) existing h c
  = generateLogData second
      (Some (fst (generateLogData first existing h c)))
      h (snd (generateLogData first existing h c)).
Proof.
  rewrite !generateLogData_run, newLogs_app. cbn [fst snd].
  now rewrite app_assoc.
Qed.

(** ** Timestamps *)

Lemma for_push_from_map_const {A B} (f : A -> B) (v : B) (body : Z -> Eff A)
    h :
  (forall i c, f (fst (body i h c)) = v) ->
  forall iters i c,
    map f (fst (for_push_from i iters body h c)) = repeat v iters.
Proof.
  intros Hbody. induction iters as [|n IH]; intros i c.
  - reflexivity.
  - cbn [for_push_from]. rewrite !bind_run. cbn [ret fst map repeat].
    now rewrite Hbody, IH.
Qed.

Lemma logsOfSample_stamps traffic h c :
  hasTime traffic = true ->
  map timestamp (fst (logsOfSample [] traffic h c)) = stamps traffic.
Proof.
  destruct traffic as [[[t|] i o]|]; cbn [hasTime time is_some];
    try discriminate; intros _.
  - cbn [logsOfSample]. rewrite bind_run. cbn [ret fst app].
    unfold for_push. cbn [stamps emitted inbound outbound].
    apply for_push_from_map_const. intros _ c'.
    now apply logEntry_timestamp.
  - reflexivity.
Qed.

Lemma newLogs_stamps samples h : forall c,
  forallb hasTime samples = true ->
  map timestamp (fst (newLogs samples h c)) = flat_map stamps samples.
Proof.
  induction samples as [|x rest IH]; intros c Hall.
  - reflexivity.
  - cbn [forallb] in Hall. apply andb_prop in Hall as [Hx Hrest].
    rewrite newLogs_cons. cbn [fst flat_map].
    rewrite map_app, IH by exact Hrest.
    now rewrite logsOfSample_stamps.
Qed.

(** X3: when every sample carries a time, the new entries come in the order
    of the samples, each sample contributing one entry per unit of volume,
    and every entry carries the time of its sample. *)
Theorem generateLogData_stamps samples h c :
  forallb hasTime samples = true ->
  map timestamp (fst (generateLogData samples None h c))
  = flat_map stamps samples.
Proof.
  intros Hall. rewrite generateLogData_run. cbn [fst app].
  now apply newLogs_stamps.
Qed.

Lemma generateLogData_stamps_witness :
  forallb hasTime
    [Some (mkSample (Some 7) (Some 2) None); None;
     Some (mkSample (Some 9) (Some 1) (Some 0))] = true
  /\ map timestamp
       (fst (generateLogData
               [Some (mkSample (Some 7) (Some 2) None); None;
                Some (mkSample (Some 9) (Some 1) (Some 0))]
               None host_cycle boot))
     = [7; 7; 9].
Proof.
  split; [reflexivity|].
  apply (generateLogData_stamps
           [Some (mkSample (Some 7) (Some 2) None); None;
            Some (mkSample (Some 9) (Some 1) (Some 0))] host_cycle boot).
  reflexivity.
Defined.

(** ** What the generators ask of the host *)

Lemma malicious_prefix m :
  In m maliciousTypes -> startsWith m "악성" = true.
Proof.
  intros Hin. simpl in Hin.
  repeat (destruct Hin as [<-|Hin]; [reflexivity|]). contradiction.
Qed.

Lemma randomIP_cursor h c :
  snd (randomIP h c) = at_ (draws c + 4) (reads c).
Proof.
  unfold randomIP. rewrite !bind_run. cbn [ret snd].
  rewrite !random_floor_cursor. cbn [draws reads]. f_equal. lia.
Qed.

Lemma pickType_cursor h c :
  in_unit_interval h ->
  snd (pickType h c)
  = at_ (draws c + typeDraws (fst (pickType h c))) (reads c).
Proof.
  intros Hh. unfold pickType. rewrite bind_run.
  change (fst (Math_random h c)) with (random h (draws c)).
  change (snd (Math_random h c)) with (at_ (S (draws c)) (reads c)).
  destruct (Qltb (random h (draws c)) (fl 0.6));
    [|destruct (Qltb (random h (draws c)) (fl 0.9))].
  - cbn. f_equal. lia.
  - rewrite bind_run.
    destruct (random_pick_in h (at_ (S (draws c)) (reads c)) maliciousTypes Hh)
      as (x & Hx & Hin); [discriminate|].
    cbn [ret fst snd]. rewrite Hx. cbn [typeDraws].
    rewrite (malicious_prefix x Hin), random_floor_cursor.
    cbn [draws reads]. f_equal. lia.
  - cbn. f_equal. lia.
Qed.

Lemma logEntry_cursor traffic h c :
  in_unit_interval h ->
  snd (logEntry traffic h c)
  = at_ (draws c + 13
         + (if isMalicious (fst (logEntry traffic h c)) then 1 else 0))
        (reads c + (if is_some (time traffic) then 0 else 1)).
Proof.
  intros Hh. unfold isMalicious. rewrite logEntry_type.
  unfold logEntry. rewrite !bind_run. cbn [ret snd].
  rewrite !random_floor_cursor, !randomIP_cursor. cbn [draws reads].
  pose proof (pickType_cursor h c Hh) as Hc.
  destruct (time traffic) as [t|]; cbn [is_some];
    [change (snd (ret t h (snd (pickType h c)))) with (snd (pickType h c))
    |change (snd (Date_now h (snd (pickType h c))))
       with (at_ (draws (snd (pickType h c)))
                 (S (reads (snd (pickType h c)))))];
    rewrite Hc; cbn [draws reads]; unfold typeDraws;
    destruct (fst (pickType h c)) as [ty|];
    try destruct (startsWith ty "악성"); f_equal; lia.
Qed.

Lemma logEntry_loop_cursor traffic h :
  in_unit_interval h ->
  forall iters i c,
    let r := for_push_from i iters (fun _ => logEntry traffic) h c in
    snd r
    = at_ (draws c + 13 * iters + length (filter isMalicious (fst r)))
          (reads c + (if is_some (time traffic) then 0 else iters)).
Proof.
  intros Hh. induction iters as [|n IH]; intros i c; cbv zeta.
  - cbn. destruct c as [d r]. cbn. f_equal; [lia|].
    destruct (is_some (time traffic)); lia.
  - cbn [for_push_from]. rewrite !bind_run. cbn [ret fst snd filter].
    specialize (IH (i + 1) (snd (logEntry traffic h c))). cbv zeta in IH.
    rewrite IH, (logEntry_cursor traffic h c Hh). cbn [draws reads].
    destruct (isMalicious (fst (logEntry traffic h c)));
      destruct (is_some (time traffic)); cbn [length]; f_equal; lia.
Qed.

Lemma logsOfSample_cursor traffic h c :
  in_unit_interval h ->
  let r := logsOfSample [] traffic h c in
  snd r
  = at_ (draws c + 13 * length (fst r)
         + length (filter isMalicious (fst r)))
        (reads c + clockReads traffic).
Proof.
  intros Hh r. subst r. destruct traffic as [t|].
  - cbn [logsOfSample]. rewrite bind_run. cbn [ret fst snd app].
    unfold for_push. rewrite logEntry_loop_cursor by exact Hh.
    rewrite for_push_from_length.
    unfold clockReads, hasTime, emitted.
    now destruct (is_some (time t)).
  - cbn. destruct c as [d r]. cbn. f_equal; lia.
Qed.

Lemma newLogs_cursor h :
  in_unit_interval h ->
  forall samples c,
    let r := newLogs samples h c in
    snd r
    = at_ (draws c + 13 * length (fst r)
           + length (filter isMalicious (fst r)))
          (reads c + list_sum (map clockReads samples)).
Proof.
  intros Hh. induction samples as [|x rest IH]; intros c; cbv zeta.
  - cbn. destruct c as [d r]. cbn. f_equal; lia.
  - rewrite newLogs_cons. cbn [fst snd map list_sum].
    specialize (IH (snd (logsOfSample [] x h c))). cbv zeta in IH.
    rewrite IH, (logsOfSample_cursor x h c Hh). cbn [draws reads].
    rewrite filter_app, !length_app.
    change (list_sum (clockReads x :: map clockReads rest))
      with (clockReads x + list_sum (map clockReads rest))%nat.
    f_equal; lia.
Qed.

Lemma clockReads_timed samples :
  forallb hasTime samples = true ->
  list_sum (map clockReads samples) = 0%nat.
Proof.
  induction samples as [|x rest IH]; intros Hall; [reflexivity|].
  cbn [forallb] in Hall. apply andb_prop in Hall as [Hx Hrest].
  cbn [map].
  change (list_sum (clockReads x :: map clockReads rest))
    with (clockReads x + list_sum (map clockReads rest))%nat.
  rewrite IH by exact Hrest. unfold clockReads. now rewrite Hx.
Qed.

(** X4: with every draw in [0, 1), a call of [generateLogData] draws 13
    random numbers for each new entry and one more for each new entry of a
    malicious type, and reads the clock once for each entry of a sample
    without a time: it never reads the clock when every sample carries a
    time.  The existing history plays no part in this. *)
Theorem generateLogData_effects h c samples existing :
  in_unit_interval h ->
  let fresh := fst (generateLogData samples None h c) in
  snd (generateLogData samples existing h c)
  = at_ (draws c + 13 * length fresh + length (filter isMalicious fresh))
        (reads c + list_sum (map clockReads samples))
  /\ (forallb hasTime samples = true ->
      reads (snd (generateLogData samples existing h c)) = reads c).
Proof.
  intros Hh fresh. subst fresh. rewrite !generateLogData_run.
  cbn [fst snd app]. rewrite (newLogs_cursor h Hh samples c).
  split; [reflexivity|].
  intros Hall. cbn [reads]. rewrite clockReads_timed by exact Hall. lia.
Qed.

Lemma generateLogData_effects_witness :
  in_unit_interval host_cycle
  /\ snd (generateLogData
            [Some (mkSample (Some 5) (Some 2) (Some 1));
             Some (mkSample None None (Some 1))]
            (Some [old_entry]) host_cycle (at_ 9 0))
     = at_ (9 + 13 * 4 + 1) (0 + 1).
Proof.
  split; [exact host_cycle_unit|].
  exact (proj1 (generateLogData_effects host_cycle (at_ 9 0)
                  [Some (mkSample (Some 5) (Some 2) (Some 1));
                   Some (mkSample None None (Some 1))]
                  (Some [old_entry]) host_cycle_unit)).
Defined.

(** X5: a call of [generateTrafficData] reads the clock exactly once,
    whatever the count, and draws exactly two random numbers per sample
    returned. *)
Theorem generateTrafficData_effects count h c :
  let r := generateTrafficData count h c in
  reads (snd r) = S (reads c)
  /\ draws (snd r) = (draws c + 2 * length (fst r))%nat.
Proof.
  cbv zeta. rewrite generateTrafficData_length, generateTrafficData_run.
  now split.
Qed.

Lemma flow_loop h : forall iters i c,
  for_push_from i iters
    (fun _ : Z =>
       s <- random_floor (Z.of_nat (length countries)) ;;
       e <- random_floor (Z.of_nat (length countries)) ;;
       ret (mkFlow (js_index countries s) (js_index countries e))) h c
  = (map (fun k => flowAt h c k) (seq 0 iters),
     at_ (draws c + 2 * iters) (reads c)).
Proof.
  induction iters as [|n IH]; intros i c.
  - simpl. unfold ret. destruct c as [d r]. simpl.
    now rewrite Nat.add_0_r.
  - cbn [for_push_from]. rewrite bind_run, (bind_run (for_push_from _ _ _)).
    rewrite IH. rewrite !bind_run, !random_floor_run.
    cbn [ret fst snd draws reads seq map].
    rewrite <- seq_shift, map_map. unfold flowAt.
    change (inject_Z (Z.of_nat (length countries))) with 10%Q.
    rewrite Nat.mul_0_r, !Nat.add_0_r.
    replace (draws c + 1)%nat with (S (draws c)) by lia.
    replace (draws c + 2 * S n)%nat with (S (S (draws c)) + 2 * n)%nat by lia.
    unfold ret. cbn [draws]. f_equal. f_equal. apply map_ext. intros k.
    replace (S (S (draws c)) + 2 * k)%nat with (draws c + 2 * S k)%nat by lia.
    reflexivity.
Qed.

(** X6: the [k]-th of the 50 pairs of a call of [generateFlowData] has as
    start the country of index [Math.floor(r * 10)], the product rounded as
    the code rounds it, for the draw number [2k] of the call, and as end
    the one for the draw number [2k+1]; the call draws exactly 100 random
    numbers and never reads the clock. *)
Theorem generateFlowData_run h c :
  generateFlowData h c
  = (map (flowAt h c) (seq 0 50), at_ (draws c + 100) (reads c)).
Proof.
  unfold generateFlowData, for_push. now rewrite flow_loop.
Qed.

(** ** The two updaters, one call at a time *)

Lemma updateTrafficData_arrival prevData h c :
  updateTrafficData prevData h c
  = (filter isSample (slice_last 29 prevData) ++ [Some (arrival h c)],
     at_ (draws c + 60) (S (reads c))).
Proof.
  rewrite updateTrafficData_run, generateTrafficData_run, filter_app.
  unfold sampleAt, arrival. cbn [snd Z.of_nat].
  rewrite Nat.mul_0_r, Nat.add_0_r. reflexivity.
Qed.

(** X7: a traffic tick generates 30 samples and keeps the first of them:
    the one timed 58 s before the clock reading, whose two volumes are
    [Math.floor(r * 30)], the product rounded as the code rounds it, for
    the first two draws of the tick.  The tick spends 60 draws and one
    clock reading.  The new window is made of the complete samples among
    the last 29 of the old one, nulls and samples with a missing field
    being dropped, followed by the new sample. *)
Theorem updateTrafficData_window prevData h c :
  updateTrafficData prevData h c
  = (filter isSample (slice_last 29 prevData)
       ++ [Some (mkSample (Some (clock h (reads c) - 58000))
                          (Some (Qfloor (fl (random h (draws c) * 30))))
                          (Some (Qfloor (fl (random h (draws c + 1) * 30)))))],
     at_ (draws c + 60) (S (reads c))).
Proof. apply updateTrafficData_arrival. Qed.

Lemma slice_last_one {A} (window : list A) (d : A) :
  slice_last 1 window = match window with [] => [] | _ => [last window d] end.
Proof.
  unfold slice_last. induction window as [|x rest IH]; [reflexivity|].
  destruct rest as [|y rest]; [reflexivity|].
  replace (length (x :: y :: rest) - 1)%nat with (S (length rest))
    by (cbn [length]; lia).
  replace (length (y :: rest) - 1)%nat with (length rest) in IH
    by (cbn [length]; lia).
  cbn [skipn]. rewrite IH. reflexivity.
Qed.

Lemma newLogs_last window h c :
  newLogs (slice_last 1 window) h c = newLogs [last window None] h c.
Proof.
  rewrite (slice_last_one window None). destruct window; reflexivity.
Qed.

(** X8: a log tick looks at the last sample of the window only.  When the
    window is empty, or its last sample is null or has no volume, the
    history is returned as it is and the host is not consulted; otherwise
    the last sample's entries, one per unit of volume, go in front of the
    history, which is then cut to its first 100 entries. *)
Theorem updateLogs_last window prevLogs h c :
  let lastSample := last window None in
  let fresh := fst (generateLogData [lastSample] None h c) in
  length fresh = emitted lastSample
  /\ (emitted lastSample = 0%nat ->
      updateLogs window prevLogs h c = (prevLogs, c))
  /\ ((0 < emitted lastSample)%nat ->
      fst (updateLogs window prevLogs h c) = firstn 100 (fresh ++ prevLogs)).
Proof.
  intros lastSample fresh.
  assert (Hlen : length fresh = emitted lastSample).
  { unfold fresh. rewrite generateLogData_run. cbn [fst app].
    rewrite newLogs_length. cbn. lia. }
  assert (Hrun : generateLogData (slice_last 1 window) (Some []) h c
                 = generateLogData [lastSample] None h c).
  { rewrite !generateLogData_run. now rewrite newLogs_last. }
  split; [exact Hlen|]. rewrite updateLogs_run, Hrun. fold fresh. cbv zeta.
  split; intros He.
  - assert (Hnil : fresh = []) by (destruct fresh; [easy|cbn in Hlen; lia]).
    rewrite Hnil. cbn [length Nat.ltb Nat.leb fst]. f_equal.
    unfold fresh in Hnil. rewrite generateLogData_run in *.
    cbn [fst snd app] in *.
    destruct lastSample as [t|] eqn:El; [|reflexivity].
    unfold newLogs. cbn [reduce logsOfSample]. rewrite !bind_run.
    unfold for_push. cbn [emitted] in He. rewrite He. reflexivity.
  - cbn [fst]. destruct (0 <? length fresh)%nat eqn:E; [reflexivity|].
    apply Nat.ltb_ge in E. lia.
Qed.

Lemma updateLogs_last_witness :
  (0 < emitted (last [None; Some sample_one] None))%nat
  /\ fst (updateLogs [None; Some sample_one] [old_entry] host_half boot)
     = firstn 100
         (fst (generateLogData [Some sample_one] None host_half boot)
            ++ [old_entry]).
Proof.
  split; [cbn; lia|].
  apply (proj2 (proj2 (updateLogs_last [None; Some sample_one] [old_entry]
                         host_half boot))).
  cbn. lia.
Defined.

(** ** What the dashboard holds after any sequence of ticks *)

Lemma run_invariant (P : Dashboard -> Prop) h :
  (forall t d c, P d -> P (fst (tick t d h c))) ->
  forall timers d c, P d -> P (fst (run timers d h c)).
Proof.
  intros Hstep. induction timers as [|t rest IH]; intros d c Hd.
  - exact Hd.
  - cbn [run]. rewrite bind_run. apply IH. now apply Hstep.
Qed.

Lemma Forall_skipn {A} (P : A -> Prop) n (l : list A) :
  Forall P l -> Forall P (skipn n l).
Proof.
  intros H. rewrite <- (firstn_skipn n l) in H.
  now apply Forall_app in H.
Qed.

Lemma Forall_firstn {A} (P : A -> Prop) n (l : list A) :
  Forall P l -> Forall P (firstn n l).
Proof.
  intros H. rewrite <- (firstn_skipn n l) in H.
  now apply Forall_app in H.
Qed.

Lemma Forall_filter {A} (P : A -> Prop) f (l : list A) :
  Forall P l -> Forall P (filter f l).
Proof.
  rewrite !Forall_forall. intros H x Hx. apply filter_In in Hx. now apply H.
Qed.

Lemma arrival_generated h c :
  in_unit_interval h -> isGeneratedSample (Some (arrival h c)).
Proof.
  intros Hh. unfold arrival. do 3 eexists. split; [reflexivity|].
  split.
  - apply (draw_range h _ 30 Hh). lia.
  - apply (draw_range h _ 30 Hh). lia.
Qed.

Lemma tick_generated h t d c :
  in_unit_interval h -> generated d -> generated (fst (tick t d h c)).
Proof.
  intros Hh [Hw Hl]. destruct t; unfold tick; rewrite bind_run;
    cbn [ret fst]; split; cbn [trafficData logs]; try assumption.
  - rewrite (updateTrafficData_arrival (trafficData d) h c).
    cbn [fst]. apply Forall_app. split.
    + apply Forall_filter. now apply Forall_skipn.
    + constructor; [now apply arrival_generated | constructor].
  - rewrite updateLogs_run. cbn [fst]. cbv zeta.
    destruct (0 <? _)%nat; [|exact Hl].
    apply Forall_firstn. apply Forall_app. split; [|exact Hl].
    rewrite generateLogData_run. cbn [fst app].
    apply newLogs_Forall. intros traffic c'. now apply logEntry_generated.
Qed.

Lemma mounted_generated : generated mounted.
Proof. split; constructor. Qed.

Lemma generated_emitted d :
  isGeneratedSample d -> (emitted d <= 58)%nat.
Proof.
  intros (t & i & o & -> & Hi & Ho). cbn. lia.
Qed.

(** X9: with every draw in [0, 1), whatever the order in which the two
    timers have fired since the dashboard was mounted, every sample of the
    window has a time and two volumes in 0..29, and every entry of the
    history has well-formed addresses, ports, protocol, type and volume;
    hence a log tick never adds more than 58 entries. *)
Theorem dashboard_generated h c timers :
  in_unit_interval h ->
  let d := fst (run timers mounted h c) in
  Forall isGeneratedSample (trafficData d)
  /\ Forall isGeneratedEntry (logs d)
  /\ forall c',
       (length (fst (generateLogData (slice_last 1 (trafficData d))
                       (Some []) h c')) <= 58)%nat.
Proof.
  intros Hh d.
  assert (Hd : generated d).
  { apply run_invariant; [|exact mounted_generated].
    intros t d0 c0. now apply tick_generated. }
  destruct Hd as [Hw Hl]. split; [exact Hw|]. split; [exact Hl|].
  intros c'. rewrite generateLogData_run. cbn [fst app].
  rewrite newLogs_last, newLogs_length. cbn [map list_sum fold_right].
  rewrite Nat.add_0_r.
  destruct (trafficData d) as [|x rest] eqn:E; [cbn; lia|].
  apply generated_emitted. rewrite <- E in *.
  rewrite Forall_forall in Hw. apply Hw.
  rewrite E. destruct (exists_last (l := x :: rest)) as (l' & a & Ea);
    [discriminate|].
  rewrite Ea, last_last. apply in_or_app. right. now left.
Qed.

Lemma dashboard_generated_witness :
  in_unit_interval host_cycle
  /\ Forall isGeneratedSample
       (trafficData
          (fst (run [TrafficTimer; LogTimer; TrafficTimer] mounted
                  host_cycle boot)))
  /\ Forall isGeneratedEntry
       (logs
          (fst (run [TrafficTimer; LogTimer; TrafficTimer] mounted
                  host_cycle boot))).
Proof.
  split; [exact host_cycle_unit|].
  pose proof (dashboard_generated host_cycle boot
                [TrafficTimer; LogTimer; TrafficTimer] host_cycle_unit)
    as (Hw & Hl & _).
  split; [exact Hw | exact Hl].
Defined.

(** ** TrafficGraph *)

Lemma series_of_generated window :
  Forall isGeneratedSample window ->
  map Some (validInboundData window)
  = map (fun d => match d with Some s => inbound s | None => None end) window
  /\ map Some (validOutboundData window)
     = map (fun d => match d with Some s => outbound s | None => None end)
           window
  /\ Forall (fun v => 0 <= v < chart_y_max) (validInboundData window)
  /\ Forall (fun v => 0 <= v < chart_y_max) (validOutboundData window).
Proof.
  induction 1 as [|d rest (t & i & o & -> & Hi & Ho) _ (Ha & Hb & Hc & Hd)].
  - repeat split; constructor.
  - unfold validInboundData, validOutboundData, chart_y_max in *.
    cbn [map inbound outbound]. rewrite Ha, Hb.
    repeat split; constructor; assumption.
Qed.

Lemma labels_of_generated window h c :
  Forall isGeneratedSample window ->
  exists times,
    chartLabels window h c = (times, c)
    /\ map Some times
       = map (fun d => match d with Some s => time s | None => None end)
             window.
Proof.
  induction 1 as [|d rest (t & i & o & -> & _) _ (times & Hrun & Htimes)].
  - exists []. split; reflexivity.
  - exists (t :: times). split.
    + unfold chartLabels in *. cbn [map_eff]. rewrite !bind_run.
      cbn [ret fst snd]. now rewrite Hrun.
    + cbn [map time]. now rewrite Htimes.
Qed.

(** X10: with every draw in [0, 1), at any moment of the life of the
    dashboard the two series handed to the charts are exactly the inbound
    and the outbound volumes of the samples of the window, none replaced by
    the fallback 0, and every plotted value lies in 0..29, below the upper
    end 30 of the y axis; the labels are the times of the samples, obtained
    without reading the clock. *)
Theorem trafficGraph_series h c timers c' :
  in_unit_interval h ->
  let window := trafficData (fst (run timers mounted h c)) in
  (map Some (validInboundData window)
   = map (fun d => match d with Some s => inbound s | None => None end) window
   /\ map Some (validOutboundData window)
      = map (fun d => match d with Some s => outbound s | None => None end)
            window
   /\ Forall (fun v => 0 <= v < chart_y_max) (validInboundData window)
   /\ Forall (fun v => 0 <= v < chart_y_max) (validOutboundData window))
  /\ exists times,
       chartLabels window h c' = (times, c')
       /\ map Some times
          = map (fun d => match d with Some s => time s | None => None end)
                window.
Proof.
  intros Hh window.
  assert (Hw : Forall isGeneratedSample window).
  { apply (run_invariant generated h); [|exact mounted_generated].
    intros t d0 c0. now apply tick_generated. }
  split; [now apply series_of_generated | now apply labels_of_generated].
Qed.

Lemma trafficGraph_series_witness :
  in_unit_interval host_cycle
  /\ Forall (fun v => 0 <= v < chart_y_max)
       (validInboundData
          (trafficData
             (fst (run [TrafficTimer; LogTimer; TrafficTimer] mounted
                     host_cycle boot)))).
Proof.
  split; [exact host_cycle_unit|].
  exact (proj1 (proj2 (proj2 (proj1
    (trafficGraph_series host_cycle boot
       [TrafficTimer; LogTimer; TrafficTimer] boot host_cycle_unit))))).
Defined.

(** ** LogTable *)

Lemma getFilteredLogs_filter logs selected :
  getFilteredLogs logs selected = filter (keepsLog selected) logs.
Proof. now destruct logs. Qed.

(** The three tests of the table on a generated type: exactly one holds. *)
Lemma known_type_tests ty :
  isKnownType (Some ty) ->
  (ty = type_normal
   /\ (ty =? "정상")%string = true /\ startsWith ty "악성" = false
   /\ (ty =? "새로운 패턴")%string = false)
  \/ (In ty maliciousTypes
      /\ (ty =? "정상")%string = false /\ startsWith ty "악성" = true
      /\ (ty =? "새로운 패턴")%string = false /\ (ty =? "악성")%string = false
      /\ (ty =? "")%string = false)
  \/ (ty = type_novel
      /\ (ty =? "정상")%string = false /\ startsWith ty "악성" = false
      /\ (ty =? "새로운 패턴")%string = true).
Proof.
  intros [H|[H|(m & Hin & H)]]; injection H as ->.
  - left. repeat split.
  - right. right. repeat split.
  - right. left. split; [exact Hin|]. simpl in Hin.
    repeat (destruct Hin as [<-|Hin]; [repeat split|]). contradiction.
Qed.

Lemma keepsLog_partition e :
  isKnownType (type e) ->
  keepsLog "all" (Some e) = true
  /\ ((if keepsLog "normal" (Some e) then 1 else 0)
      + (if keepsLog "malicious" (Some e) then 1 else 0)
      + (if keepsLog "new" (Some e) then 1 else 0) = 1)%nat.
Proof.
  intros Hk. unfold keepsLog.
  destruct (type e) as [ty|] eqn:Ety.
  - cbn [String.eqb Ascii.eqb Bool.eqb].
    destruct (known_type_tests ty Hk)
      as [(_ & -> & -> & ->)|[(_ & -> & -> & -> & _)|(_ & -> & -> & ->)]];
      now split.
  - destruct Hk as [H|[H|(m & _ & H)]]; discriminate H.
Qed.

Lemma filter_length_cons {A} (f : A -> bool) x l :
  length (filter f (x :: l))
  = ((if f x then 1 else 0) + length (filter f l))%nat.
Proof. cbn [filter]. now destruct (f x). Qed.

Lemma filters_of_known (entries : list LogEntry) :
  Forall (fun e => isKnownType (type e)) entries ->
  let rows := map Some entries in
  getFilteredLogs rows "all" = rows
  /\ (length (getFilteredLogs rows "normal")
      + length (getFilteredLogs rows "malicious")
      + length (getFilteredLogs rows "new") = length rows)%nat.
Proof.
  cbv zeta. rewrite !getFilteredLogs_filter.
  induction 1 as [|e rest He _ [IHall IHsum]]; [now split|].
  cbn [map]. destruct (keepsLog_partition e He) as [Hall Hone].
  split.
  - cbn [filter]. now rewrite Hall, IHall.
  - rewrite !filter_length_cons. cbn [length]. lia.
Qed.

(** X11: with every draw in [0, 1), at any moment of the life of the
    dashboard the filter "all" shows the whole history, and the filters
    "normal", "malicious" and "new" split it: every entry is shown by
    exactly one of the three, so the three counts add up to the length of
    the history. *)
Theorem logTable_filters h c timers :
  in_unit_interval h ->
  let rows := map Some (logs (fst (run timers mounted h c))) in
  getFilteredLogs rows "all" = rows
  /\ (length (getFilteredLogs rows "normal")
      + length (getFilteredLogs rows "malicious")
      + length (getFilteredLogs rows "new") = length rows)%nat.
Proof.
  intros Hh. apply filters_of_known.
  assert (Hd : generated (fst (run timers mounted h c))).
  { apply run_invariant; [|exact mounted_generated].
    intros t d0 c0. now apply tick_generated. }
  destruct Hd as [_ Hl]. eapply Forall_impl; [|exact Hl].
  intros e He. apply He.
Qed.

Lemma logTable_filters_witness :
  in_unit_interval host_cycle
  /\ getFilteredLogs
       (map Some (logs (fst (run [TrafficTimer; LogTimer] mounted
                               host_cycle boot)))) "all"
     = map Some (logs (fst (run [TrafficTimer; LogTimer] mounted
                              host_cycle boot))).
Proof.
  split; [exact host_cycle_unit|].
  exact (proj1 (logTable_filters host_cycle boot [TrafficTimer; LogTimer]
                  host_cycle_unit)).
Defined.

(** X12: a filter value other than "all", "normal", "malicious" and "new"
    shows nothing, and under every filter value a null entry and an entry
    whose type is not a string are left out. *)
Theorem getFilteredLogs_kept logs selected :
  (selected <> "all"%string -> selected <> "normal"%string ->
   selected <> "malicious"%string -> selected <> "new"%string ->
   getFilteredLogs logs selected = [])
  /\ Forall (fun row => exists e ty, row = Some e /\ type e = Some ty)
            (getFilteredLogs logs selected).
Proof.
  rewrite getFilteredLogs_filter. split.
  - intros Ha Hn Hm Hw.
    apply String.eqb_neq in Ha, Hn, Hm, Hw.
    induction logs as [|row rest IH]; [reflexivity|].
    cbn [filter]. rewrite IH.
    unfold keepsLog. destruct row as [e|]; [|reflexivity].
    destruct (type e); [|reflexivity]. now rewrite Ha, Hn, Hm, Hw.
  - apply Forall_forall. intros row Hrow. apply filter_In in Hrow as [_ Hk].
    unfold keepsLog in Hk. destruct row as [e|]; [|discriminate].
    destruct (type e) as [ty|] eqn:E; [|discriminate]. now exists e, ty.
Qed.

Lemma getFilteredLogs_kept_witness :
  "critical"%string <> "all"%string
  /\ getFilteredLogs [Some old_entry; None] "critical" = [].
Proof.
  split; [discriminate|].
  apply (proj1 (getFilteredLogs_kept [Some old_entry; None] "critical"));
    discriminate.
Defined.

Lemma typeCell_of_known ty :
  isKnownType (Some ty) ->
  (ty = type_normal
   /\ typeCell ty = ("text-green-600", Some CheckCircle, "정상")%string)
  \/ (In ty maliciousTypes
      /\ typeCell ty = ("text-gray-600", Some AlertTriangle, "악성")%string)
  \/ (ty = type_novel
      /\ typeCell ty = ("text-yellow-600", None, "새로운 패턴")%string).
Proof.
  intros [H|[H|(m & Hin & H)]]; injection H as ->.
  - left. now split.
  - right. right. now split.
  - right. left. split; [exact Hin|]. simpl in Hin.
    repeat (destruct Hin as [<-|Hin]; [reflexivity|]). contradiction.
Qed.

(** X13: with every draw in [0, 1), at any moment of the life of the
    dashboard every entry of the history has a string type, and its type
    cell is one of three: green with the check icon and its own text for
    the normal type; the grey fallback colour with the warning icon and the
    text cut to the prefix for each of the nine malicious types; yellow
    without an icon for the new pattern.  The red class, kept for a type
    equal to the bare prefix, is never used. *)
Theorem logTable_typeCell h c timers :
  in_unit_interval h ->
  Forall (fun e =>
            exists ty,
              type e = Some ty
              /\ getTypeColor ty <> "text-red-600"%string
              /\ ((ty = type_normal
                   /\ typeCell ty
                      = ("text-green-600", Some CheckCircle, "정상")%string)
                  \/ (In ty maliciousTypes
                      /\ typeCell ty
                         = ("text-gray-600", Some AlertTriangle,
                            "악성")%string)
                  \/ (ty = type_novel
                      /\ typeCell ty
                         = ("text-yellow-600", None,
                            "새로운 패턴")%string)))
         (logs (fst (run timers mounted h c))).
Proof.
  intros Hh.
  assert (Hd : generated (fst (run timers mounted h c))).
  { apply run_invariant; [|exact mounted_generated].
    intros t d0 c0. now apply tick_generated. }
  destruct Hd as [_ Hl]. eapply Forall_impl; [|exact Hl].
  intros e (_ & _ & _ & _ & _ & Hk & _).
  assert (Hty : exists ty, type e = Some ty).
  { destruct Hk as [H|[H|(m & _ & H)]]; rewrite H; eauto. }
  destruct Hty as (ty & Ety). rewrite Ety in Hk. exists ty.
  split; [exact Ety|].
  pose proof (typeCell_of_known ty Hk) as Hcell. split; [|exact Hcell].
  unfold typeCell in Hcell.
  destruct Hcell as [(_ & E)|[(_ & E)|(_ & E)]];
    injection E as -> _ _; discriminate.
Qed.

Lemma logTable_typeCell_witness :
  in_unit_interval host_cycle
  /\ Forall (fun e => exists ty, type e = Some ty)
       (logs (fst (run [TrafficTimer; LogTimer] mounted host_cycle boot))).
Proof.
  split; [exact host_cycle_unit|].
  eapply Forall_impl;
    [|exact (logTable_typeCell host_cycle boot [TrafficTimer; LogTimer]
               host_cycle_unit)].
  intros e (ty & Ety & _). now exists ty.
Defined.

(** ** GlobeTrafficFlow *)

Lemma countries_located s :
  In s countries ->
  located (Some s) /\ isDrawn (Some (mkFlow (Some s) (Some s))) = true.
Proof.
  intros Hin. simpl in Hin.
  repeat (destruct Hin as [<-|Hin];
          [split; [eexists _, _; repeat split|reflexivity]|]).
  contradiction.
Qed.

(** X14: with every draw in [0, 1), each of the 50 pairs of a call of
    [generateFlowData] passes the guard of the globe and is drawn, and both
    its codes have an entry of their own in the coordinate table, a point
    with a latitude in -90..90 and a longitude in -180..180: no arc starts
    or ends at the fallback point (0, 0). *)
Theorem earth_flows h c :
  in_unit_interval h ->
  Forall (fun flow =>
            isDrawn (Some flow) = true
            /\ located (start flow) /\ located (end_ flow))
         (fst (generateFlowData h c)).
Proof.
  intros Hh. apply for_push_from_Forall. intros _ c'.
  rewrite !bind_run. cbn [ret fst start end_].
  destruct (random_pick_in h c' countries Hh) as (s & Hs & Hins);
    [discriminate|].
  destruct (random_pick_in h (snd (random_floor 10 h c')) countries Hh)
    as (e & He & Hine); [discriminate|].
  change (Z.of_nat (length countries)) with 10 in *.
  rewrite Hs, He.
  destruct (countries_located s Hins) as [Hls Hds].
  destruct (countries_located e Hine) as [Hle Hde].
  split; [|now split].
  cbn [isDrawn] in *. apply andb_prop in Hds as [Hs1 _].
  apply andb_prop in Hde as [He1 _]. now rewrite Hs1, He1.
Qed.

Lemma earth_flows_witness :
  in_unit_interval host_cycle
  /\ Forall (fun flow =>
               isDrawn (Some flow) = true
               /\ located (start flow) /\ located (end_ flow))
            (fst (generateFlowData host_cycle boot)).
Proof.
  split; [exact host_cycle_unit|].
  exact (earth_flows host_cycle boot host_cycle_unit).
Defined.

(** ** Sidebar *)

Lemma includes_filter_out other menu prev :
  existsb (String.eqb other)
          (filter (fun item => negb (item =? menu)%string) prev)
  = if (other =? menu)%string then false else existsb (String.eqb other) prev.
Proof.
  induction prev as [|x rest IH].
  - now destruct (other =? menu)%string.
  - cbn [filter existsb].
    destruct (x =? menu)%string eqn:Exm; cbn [negb existsb]; rewrite IH;
      destruct (other =? menu)%string eqn:Eom;
      destruct (other =? x)%string eqn:Eox; try reflexivity.
    + apply String.eqb_eq in Exm, Eox. subst.
      now rewrite String.eqb_refl in Eom.
    + apply String.eqb_eq in Eom, Eox. subst.
      now rewrite String.eqb_refl in Exm.
Qed.

Lemma toggleMenu_includes other menu prev :
  existsb (String.eqb other) (toggleMenu menu prev)
  = if (other =? menu)%string
    then negb (existsb (String.eqb menu) prev)
    else existsb (String.eqb other) prev.
Proof.
  unfold toggleMenu. destruct (existsb (String.eqb menu) prev) eqn:E.
  - rewrite includes_filter_out. now destruct (other =? menu)%string.
  - rewrite existsb_app. cbn [existsb]. rewrite orb_false_r.
    destruct (other =? menu)%string eqn:Eom.
    + apply String.eqb_eq in Eom. subst. rewrite E. reflexivity.
    + now rewrite orb_false_r.
Qed.

Lemma includes_In menu prev :
  existsb (String.eqb menu) prev = true <-> In menu prev.
Proof.
  rewrite existsb_exists. split.
  - intros (x & Hx & E). apply String.eqb_eq in E. now subst.
  - intros H. exists menu. split; [exact H | apply String.eqb_refl].
Qed.

Lemma toggleMenu_NoDup menu prev : NoDup prev -> NoDup (toggleMenu menu prev).
Proof.
  intros Hnd. unfold toggleMenu.
  destruct (existsb (String.eqb menu) prev) eqn:E.
  - now apply NoDup_filter.
  - apply NoDup_app; [exact Hnd | repeat constructor; intros [] |].
    intros a Ha [<-|[]]. apply includes_In in Ha. congruence.
Qed.

(** X15: toggling a menu flips whether it is open and leaves every other
    menu as it was; the list of open menus never gets a duplicate.
    Toggling a closed menu twice gives the list back, and toggling an open
    one twice moves it to the end of the list. *)
Theorem toggleMenu_flips menu prev :
  (forall other,
      existsb (String.eqb other) (toggleMenu menu prev)
      = if (other =? menu)%string
        then negb (existsb (String.eqb menu) prev)
        else existsb (String.eqb other) prev)
  /\ (NoDup prev -> NoDup (toggleMenu menu prev))
  /\ (~ In menu prev -> toggleMenu menu (toggleMenu menu prev) = prev)
  /\ (In menu prev ->
      toggleMenu menu (toggleMenu menu prev)
      = filter (fun item => negb (item =? menu)%string) prev ++ [menu]).
Proof.
  split; [intros other; apply toggleMenu_includes|].
  split; [apply toggleMenu_NoDup|].
  pose proof (toggleMenu_includes menu menu prev) as Hflip.
  rewrite String.eqb_refl in Hflip.
  split; intros Hin; unfold toggleMenu at 1; rewrite Hflip.
  - assert (E : existsb (String.eqb menu) prev = false).
    { destruct (existsb (String.eqb menu) prev) eqn:E; [|reflexivity].
      apply includes_In in E. contradiction. }
    rewrite E. cbn [negb]. unfold toggleMenu. rewrite E.
    rewrite filter_app. cbn [filter]. rewrite String.eqb_refl. cbn [negb].
    rewrite app_nil_r. apply forallb_filter_id.
    apply forallb_forall. intros x Hx.
    destruct (x =? menu)%string eqn:Ex; [|reflexivity].
    apply String.eqb_eq in Ex. subst. contradiction.
  - apply includes_In in Hin. rewrite Hin. cbn [negb].
    unfold toggleMenu. now rewrite Hin.
Qed.

Lemma toggleMenu_flips_witness :
  ~ In "보고서"%string ["보안 관리"%string]
  /\ toggleMenu "보고서" (toggleMenu "보고서" ["보안 관리"%string])
     = ["보안 관리"%string].
Proof.
  assert (H : ~ In "보고서"%string ["보안 관리"%string])
    by (intros [E|[]]; discriminate E).
  split; [exact H|].
  exact (proj1 (proj2 (proj2 (toggleMenu_flips "보고서" ["보안 관리"%string])))
           H).
Defined.

Lemma clicked_includes l items : forall openMenus,
  existsb (String.eqb l) (clicked items openMenus)
  = xorb (existsb (String.eqb l) openMenus) (Nat.odd (toggles l items)).
Proof.
  unfold clicked, toggles.
  induction items as [|item rest IH]; intros openMenus.
  - cbn. now rewrite xorb_false_r.
  - cbn [fold_left filter]. rewrite IH. unfold onClick.
    destruct (hasSubItems item); cbn [andb]; [|reflexivity].
    rewrite toggleMenu_includes, (String.eqb_sym (label item) l).
    destruct (l =? label item)%string eqn:E; [|reflexivity].
    apply String.eqb_eq in E. subst l.
    cbn [length]. rewrite Nat.odd_succ, <- Nat.negb_odd.
    destruct (existsb _ openMenus); destruct (Nat.odd _); reflexivity.
Qed.

Lemma clicked_NoDup items : forall openMenus,
  NoDup openMenus -> NoDup (clicked items openMenus).
Proof.
  unfold clicked. induction items as [|item rest IH]; intros openMenus Hnd.
  - exact Hnd.
  - cbn [fold_left]. apply IH. unfold onClick.
    destruct (hasSubItems item); [now apply toggleMenu_NoDup | exact Hnd].
Qed.

(** X16: starting with every menu closed, after any sequence of clicks a
    menu is open exactly when the clicks on items with that label and with
    sub items are odd in number; so an open menu always belongs to a clicked
    item that has sub items, and the list of open menus has no duplicate. *)
Theorem sidebar_clicks items l :
  existsb (String.eqb l) (clicked items []) = Nat.odd (toggles l items)
  /\ (In l (clicked items []) ->
      exists item,
        In item items /\ label item = l /\ hasSubItems item = true)
  /\ NoDup (clicked items []).
Proof.
  assert (Hpar : existsb (String.eqb l) (clicked items [])
                 = Nat.odd (toggles l items))
    by (rewrite clicked_includes; reflexivity).
  split; [exact Hpar|]. split; [|apply clicked_NoDup; constructor].
  intros Hin. apply includes_In in Hin. rewrite Hpar in Hin.
  unfold toggles in Hin.
  destruct (filter _ items) as [|item rest] eqn:E; [discriminate Hin|].
  assert (Hitem : In item (item :: rest)) by now left.
  rewrite <- E in Hitem. apply filter_In in Hitem as [Hi Hb].
  apply andb_prop in Hb as [Hsub Hl]. apply String.eqb_eq in Hl.
  now exists item.
Qed.

Lemma sidebar_clicks_witness :
  In "보고서"%string
     (clicked [mkMenuItem "홈" []; mkMenuItem "보고서" ["감사 로그"]]%string [])
  /\ exists item,
       In item [mkMenuItem "홈" []; mkMenuItem "보고서" ["감사 로그"]]%string
       /\ label item = "보고서"%string /\ hasSubItems item = true.
Proof.
  assert (H : In "보고서"%string
                (clicked [mkMenuItem "홈" [];
                          mkMenuItem "보고서" ["감사 로그"]]%string []))
    by (now left).
  split; [exact H|].
  exact (proj1 (proj2 (sidebar_clicks
                         [mkMenuItem "홈" [];
                          mkMenuItem "보고서" ["감사 로그"]]%string
                         "보고서")) H).
Defined.

(** ** ResourceMonitoring *)

Section MapEff.

Context {A B : Type}.
Variable h : Host.t.
Variable f : A -> Eff B.

Lemma map_eff_Forall2 (P : A -> Prop) (R : A -> B -> Prop) :
  (forall x c, P x -> R x (fst (f x h c))) ->
  forall arr c, Forall P arr -> Forall2 R arr (fst (map_eff f arr h c)).
Proof.
  intros Hf. induction arr as [|x rest IH]; intros c Harr.
  - constructor.
  - inversion Harr as [|? ? Hx Hrest]; subst.
    cbn [map_eff]. rewrite !bind_run. cbn [ret fst].
    constructor; [now apply Hf | now apply IH].
Qed.

(** A callback that draws once makes the map draw once per element. *)
Lemma map_eff_cursor :
  (forall x c, snd (f x h c) = at_ (S (draws c)) (reads c)) ->
  forall arr c,
    snd (map_eff f arr h c) = at_ (draws c + length arr) (reads c).
Proof.
  intros Hf. induction arr as [|x rest IH]; intros c.
  - destruct c as [d r]. cbn. now rewrite Nat.add_0_r.
  - cbn [map_eff]. rewrite !bind_run. cbn [ret snd length].
    rewrite IH, Hf. cbn [draws reads]. f_equal. lia.
Qed.

End MapEff.

Lemma clamp_range (lo_hi x : Q) :
  (0 <= lo_hi)%Q ->
  (0 <= Qmin lo_hi (Qmax 0 x))%Q /\ (Qmin lo_hi (Qmax 0 x) <= lo_hi)%Q.
Proof.
  intros Hm. split.
  - apply Q.min_glb; [exact Hm | apply Q.le_max_l].
  - apply Q.le_min_l.
Qed.

Lemma next_tracks h c r0 r :
  tracks r0 r -> tracks r0 (fst (ResourceMonitoring.next r h c)).
Proof.
  intros (Hn & Hm & Hu & Hi & Hc & H0 & H1).
  unfold ResourceMonitoring.next. rewrite bind_run. cbn [ret fst].
  unfold tracks. cbn. repeat split; try assumption.
  - apply clamp_range. now apply Qle_trans with (ResourceMonitoring.value r).
  - apply clamp_range. now apply Qle_trans with (ResourceMonitoring.value r).
Qed.

(** X17: one update of the gauges changes nothing but the values, draws one
    random number per resource, and leaves every value between 0 and the
    maximum of its resource, wherever the value was before, as long as the
    maximum is not negative. *)
Theorem resources_update h c resources :
  Forall (fun r => 0 <= ResourceMonitoring.maxValue r)%Q resources ->
  Forall2 (fun r r' =>
             ResourceMonitoring.name r' = ResourceMonitoring.name r
             /\ ResourceMonitoring.maxValue r' = ResourceMonitoring.maxValue r
             /\ ResourceMonitoring.unit_ r' = ResourceMonitoring.unit_ r
             /\ ResourceMonitoring.icon r' = ResourceMonitoring.icon r
             /\ ResourceMonitoring.color r' = ResourceMonitoring.color r
             /\ (0 <= ResourceMonitoring.value r')%Q
             /\ (ResourceMonitoring.value r'
                 <= ResourceMonitoring.maxValue r')%Q)
          resources (fst (ResourceMonitoring.update resources h c))
  /\ snd (ResourceMonitoring.update resources h c)
     = at_ (draws c + length resources) (reads c).
Proof.
  intros Hmax. split.
  - unfold ResourceMonitoring.update.
    apply map_eff_Forall2
      with (P := fun r => (0 <= ResourceMonitoring.maxValue r)%Q);
      [|exact Hmax].
    intros r c' Hr.
    unfold ResourceMonitoring.next. rewrite bind_run. cbn.
    repeat split; now apply clamp_range.
  - apply map_eff_cursor. intros r c'. reflexivity.
Qed.

Lemma resources_update_witness :
  Forall (fun r => 0 <= ResourceMonitoring.maxValue r)%Q
         [ResourceMonitoring.mk "CPU" 250 100 "%" "Cpu" "#3B82F6"]
  /\ snd (ResourceMonitoring.update
            [ResourceMonitoring.mk "CPU" 250 100 "%" "Cpu" "#3B82F6"]
            host_half boot)
     = at_ (0 + 1) 0.
Proof.
  assert (H : Forall (fun r => 0 <= ResourceMonitoring.maxValue r)%Q
                [ResourceMonitoring.mk "CPU" 250 100 "%" "Cpu" "#3B82F6"])
    by (repeat constructor; discriminate).
  split; [exact H|].
  exact (proj2 (resources_update host_half boot _ H)).
Defined.

Lemma update_tracks h base : forall resources c,
  Forall2 tracks base resources ->
  Forall2 tracks base (fst (ResourceMonitoring.update resources h c)).
Proof.
  unfold ResourceMonitoring.update.
  intros resources c H. revert c.
  induction H as [|r0 r base rest Hr _ IH]; intros c.
  - constructor.
  - cbn [map_eff]. rewrite !bind_run. cbn [ret fst].
    constructor; [now apply next_tracks | apply IH].
Qed.

Lemma after_tracks h base n : forall resources c,
  Forall2 tracks base resources ->
  Forall2 tracks base (fst (ResourceMonitoring.after n resources h c)).
Proof.
  induction n as [|k IH]; intros resources c H.
  - exact H.
  - cbn [ResourceMonitoring.after]. rewrite bind_run.
    apply IH. now apply update_tracks.
Qed.

Lemma round_range (v : Q) (m : Z) :
  (0 <= v)%Q -> (v <= inject_Z m)%Q -> 0 <= Math_round v <= m.
Proof.
  intros H0 H1. unfold Math_round. split.
  - change 0 with (Qfloor 0). apply Qfloor_resp_le. lra.
  - apply Z.lt_succ_r. rewrite Zlt_Qlt.
    apply Qle_lt_trans with (v + 0.5)%Q; [apply Qfloor_le|].
    unfold Z.succ. rewrite inject_Z_plus. change (inject_Z 1) with 1%Q. lra.
Qed.

Lemma gauge_of_tracked r0 r (m : Z) :
  0 < m -> ResourceMonitoring.maxValue r0 = inject_Z m ->
  tracks r0 r -> gaugeInRange r.
Proof.
  intros Hm Hmax (_ & Hsame & _ & _ & _ & H0 & H1).
  rewrite Hsame, Hmax in H1. unfold gaugeInRange.
  rewrite Hsame, Hmax. unfold ResourceMonitoring.shown.
  destruct (round_range _ m H0 H1) as [Hlo Hhi].
  set (s := Math_round (ResourceMonitoring.value r)) in *.
  assert (Hq : (0 < inject_Z m)%Q)
    by (change 0%Q with (inject_Z 0); now rewrite <- Zlt_Qlt).
  assert (Hs0 : (0 <= inject_Z s)%Q)
    by (change 0%Q with (inject_Z 0); now rewrite <- Zle_Qle).
  assert (Hs1 : (inject_Z s <= inject_Z m)%Q) by now rewrite <- Zle_Qle.
  split; [exact Hlo|]. split; [exact Hs1|].
  unfold ResourceMonitoring.slices, ResourceMonitoring.percentage.
  assert (Hd0 : (0 <= inject_Z s / inject_Z m)%Q)
    by (apply Qle_shift_div_l; [exact Hq | lra]).
  assert (Hd1 : (inject_Z s / inject_Z m <= 1)%Q)
    by (apply Qle_shift_div_r; [exact Hq | lra]).
  repeat constructor; lra.
Qed.

Lemma initial_maxima :
  Forall (fun r0 =>
            exists m, 0 < m /\ ResourceMonitoring.maxValue r0 = inject_Z m)
         ResourceMonitoring.initial.
Proof.
  unfold ResourceMonitoring.initial.
  repeat constructor; cbn [ResourceMonitoring.maxValue];
    first [exists 100; split; [lia|reflexivity]
          |exists 3500; split; [lia|reflexivity]].
Qed.

Lemma initial_tracks :
  Forall2 tracks ResourceMonitoring.initial ResourceMonitoring.initial.
Proof.
  unfold ResourceMonitoring.initial, tracks.
  repeat constructor; cbn; discriminate.
Qed.

(** X18: however often the gauges have been updated since the component
    was mounted, and whatever the random numbers were, the six resources
    are the initial ones with only their values changed, every value lies
    between 0 and the maximum of its resource, the number a gauge displays
    is a whole number between 0 and that maximum, and the two slices of the
    gauge lie between 0 and 100. *)
Theorem resources_gauges n h c :
  let resources :=
    fst (ResourceMonitoring.after n ResourceMonitoring.initial h c) in
  Forall2 tracks ResourceMonitoring.initial resources
  /\ Forall gaugeInRange resources.
Proof.
  intros resources.
  assert (Ht : Forall2 tracks ResourceMonitoring.initial resources)
    by (apply after_tracks; exact initial_tracks).
  split; [exact Ht|].
  pose proof initial_maxima as Hmax. revert Hmax.
  induction Ht as [|r0 r base rest Hr _ IH]; intros Hmax; constructor.
  - inversion Hmax as [|? ? (m & Hm & E) _]; subst.
    now apply (gauge_of_tracked r0 r m).
  - apply IH. now inversion Hmax.
Qed.

(** ** Statistics *)

Lemma statistics_next_pie h data0 : forall data c,
  pieOf data0 data -> pieOf data0 (fst (map_eff Statistics.next data h c)).
Proof.
  unfold pieOf. intros data c H. revert c.
  induction H as [|i0 i base rest [Hn _] _ IH]; intros c.
  - constructor.
  - cbn [map_eff]. rewrite !bind_run. cbn [ret fst].
    constructor; [|apply IH].
    unfold Statistics.next. rewrite bind_run. cbn.
    split; [exact Hn | apply Q.le_max_l].
Qed.

Lemma statistics_after_pie h attack0 traffic0 n : forall state c,
  pieOf attack0 (fst state) -> pieOf traffic0 (snd state) ->
  pieOf attack0 (fst (fst (Statistics.after n state h c)))
  /\ pieOf traffic0 (snd (fst (Statistics.after n state h c))).
Proof.
  induction n as [|k IH]; intros state c Ha Ht.
  - now split.
  - cbn [Statistics.after]. rewrite bind_run. apply IH;
      unfold Statistics.update; rewrite !bind_run; cbn [ret fst snd];
      now apply statistics_next_pie.
Qed.

Lemma totalTraffic_nonneg data : forall acc,
  (0 <= acc)%Q ->
  Forall (fun i => 0 <= Statistics.value i)%Q data ->
  (0 <= fold_left (fun sum item => sum + Statistics.value item) data acc)%Q.
Proof.
  induction data as [|i rest IH]; intros acc Hacc Hall.
  - exact Hacc.
  - inversion Hall as [|? ? Hi Hrest]; subst. cbn [fold_left].
    apply IH; [lra | exact Hrest].
Qed.

Lemma pieOf_values data0 data :
  pieOf data0 data -> Forall (fun i => 0 <= Statistics.value i)%Q data.
Proof.
  induction 1 as [|i0 i base rest [_ Hv] _ IH]; constructor; assumption.
Qed.

(** X19: however often the two pie charts have been updated since the
    component was mounted, and whatever the random numbers were, each chart
    keeps its items, by name and in order, no value is negative, and the
    total printed under the chart is not negative. *)
Theorem statistics_pies n h c :
  let state :=
    fst (Statistics.after n (Statistics.attackData0, Statistics.trafficData0)
           h c) in
  (pieOf Statistics.attackData0 (fst state)
   /\ (0 <= Statistics.totalTraffic (fst state))%Q)
  /\ (pieOf Statistics.trafficData0 (snd state)
      /\ (0 <= Statistics.totalTraffic (snd state))%Q).
Proof.
  intros state.
  destruct (statistics_after_pie h Statistics.attackData0
              Statistics.trafficData0 n
              (Statistics.attackData0, Statistics.trafficData0) c)
    as [Ha Ht];
    try (repeat constructor; discriminate).
  fold state in Ha, Ht.
  split; (split; [assumption|]);
    apply totalTraffic_nonneg; try lra; eapply pieOf_values; eassumption.
Qed.

(** X20: every cell of a pie chart gets one of the four colours, whatever
    its index: the fill is never undefined, and it repeats with period
    four. *)
Theorem cellFill_defined index :
  (exists colour,
      Statistics.cellFill index = Some colour
      /\ In colour Statistics.COLORS)
  /\ Statistics.cellFill (index + 4) = Statistics.cellFill index.
Proof.
  unfold Statistics.cellFill. split.
  - apply js_index_in_range. apply Z.mod_pos_bound. reflexivity.
  - f_equal. rewrite Nat2Z.inj_add.
    change (Z.of_nat (length Statistics.COLORS)) with 4.
    change (Z.of_nat 4) with (1 * 4).
    now rewrite Z.mod_add by lia.
Qed.

(** ** The order of the window *)

Section Sortedness.

Context {A : Type}.
Variable R : A -> A -> Prop.

Lemma StronglySorted_skipn n : forall l,
  StronglySorted R l -> StronglySorted R (skipn n l).
Proof.
  induction n as [|k IH]; intros l H; [exact H|].
  destruct l as [|x rest]; [exact H|].
  cbn [skipn]. apply IH. now apply StronglySorted_inv in H.
Qed.

Lemma StronglySorted_snoc l x :
  StronglySorted R l -> Forall (fun y => R y x) l ->
  StronglySorted R (l ++ [x]).
Proof.
  induction 1 as [|a rest Hs IH Ha]; intros Hx.
  - repeat constructor.
  - inversion Hx as [|? ? Hax Hrest]; subst. cbn [app]. constructor.
    + now apply IH.
    + apply Forall_app. split; [exact Ha | now repeat constructor].
Qed.

Lemma StronglySorted_map {B} (R' : B -> B -> Prop) (f : A -> B) l :
  (forall a b, R a b -> R' (f a) (f b)) ->
  StronglySorted R l -> StronglySorted R' (map f l).
Proof.
  intros Hf. induction 1 as [|a rest Hs IH Ha]; cbn [map]; constructor.
  - exact IH.
  - apply Forall_map. eapply Forall_impl; [|exact Ha]. intros b. apply Hf.
Qed.

End Sortedness.

Lemma run_invariant_cursor (P : Dashboard -> Cursor -> Prop) h :
  (forall t d c, P d c -> P (fst (tick t d h c)) (snd (tick t d h c))) ->
  forall timers d c,
    P d c -> P (fst (run timers d h c)) (snd (run timers d h c)).
Proof.
  intros Hstep. induction timers as [|t rest IH]; intros d c Hd.
  - exact Hd.
  - cbn [run]. rewrite bind_run. apply IH. now apply Hstep.
Qed.

Lemma arrivals_complete h cs : filter isSample (arrivals h cs) = arrivals h cs.
Proof.
  induction cs as [|ck rest IH]; [reflexivity|].
  cbn [arrivals map filter isSample arrival inbound outbound time is_some andb].
  f_equal. exact IH.
Qed.

Lemma arrivals_slice h n cs :
  slice_last n (arrivals h cs) = arrivals h (slice_last n cs).
Proof.
  unfold slice_last, arrivals. now rewrite length_map, skipn_map.
Qed.

Lemma updateLogs_reads window prevLogs h c :
  in_unit_interval h ->
  (reads c <= reads (snd (updateLogs window prevLogs h c)))%nat.
Proof.
  intros Hh. rewrite updateLogs_run. cbn [snd].
  rewrite generateLogData_run. cbn [snd].
  pose proof (newLogs_cursor h Hh (slice_last 1 window) c) as Hc.
  cbv zeta in Hc. rewrite Hc. cbn [reads]. lia.
Qed.

Lemma updateTrafficData_scheduled h cs c :
  updateTrafficData (arrivals h cs) h c
  = (arrivals h (slice_last 29 cs ++ [c]), at_ (draws c + 60) (S (reads c))).
Proof.
  rewrite updateTrafficData_arrival, arrivals_slice, arrivals_complete.
  unfold arrivals. now rewrite map_app.
Qed.

Lemma tick_traffic h d c :
  tick TrafficTimer d h c
  = (mkDashboard (fst (updateTrafficData (trafficData d) h c)) (logs d),
     snd (updateTrafficData (trafficData d) h c)).
Proof. unfold tick. now rewrite bind_run. Qed.

Lemma tick_logs h d c :
  tick LogTimer d h c
  = (mkDashboard (trafficData d)
       (fst (updateLogs (trafficData d) (logs d) h c)),
     snd (updateLogs (trafficData d) (logs d) h c)).
Proof. unfold tick. now rewrite bind_run. Qed.

Lemma tick_scheduled h t d c :
  in_unit_interval h ->
  scheduled h d c ->
  scheduled h (fst (tick t d h c)) (snd (tick t d h c)).
Proof.
  intros Hh (cs & Hw & Hs & Hc). destruct t.
  - rewrite tick_traffic, Hw, updateTrafficData_scheduled.
    exists (slice_last 29 cs ++ [c]).
    split; [reflexivity|]. split.
    + apply StronglySorted_snoc.
      * now apply StronglySorted_skipn.
      * now apply Forall_skipn.
    + apply Forall_app. split.
      * apply Forall_skipn. eapply Forall_impl; [|exact Hc].
        intros ck Hk. cbn in *. lia.
      * repeat constructor.
  - rewrite tick_logs. exists cs.
    split; [exact Hw|]. split; [exact Hs|].
    pose proof (updateLogs_reads (trafficData d) (logs d) h c Hh) as Hr.
    eapply Forall_impl; [|exact Hc]. intros ck Hk. cbn in *. lia.
Qed.

(** X21: with every draw in [0, 1), at any moment of the life of the
    dashboard the samples of the window all carry a time, and these times
    follow the clock: they never decrease along the window when the clock
    never goes back, and they increase strictly when every reading of the
    clock is later than the one before. *)
Theorem window_times h c timers :
  in_unit_interval h ->
  let window := trafficData (fst (run timers mounted h c)) in
  exists times,
    map timeOf window = map Some times
    /\ ((forall n m, (n < m)%nat -> clock h n <= clock h m) ->
        StronglySorted Z.le times)
    /\ ((forall n m, (n < m)%nat -> clock h n < clock h m) ->
        StronglySorted Z.lt times).
Proof.
  intros Hh window.
  destruct (run_invariant_cursor (scheduled h) h
              (fun t d0 c0 => tick_scheduled h t d0 c0 Hh)
              timers mounted c) as (cs & Hw & Hs & _).
  { exists []. repeat split; constructor. }
  exists (map (fun ck => clock h (reads ck) - 58000) cs).
  split; [|split].
  - unfold window. rewrite Hw. unfold arrivals. rewrite !map_map.
    reflexivity.
  - intros Hclock. eapply StronglySorted_map; [|exact Hs].
    intros a b Hab. cbn beta in *. specialize (Hclock _ _ Hab). lia.
  - intros Hclock. eapply StronglySorted_map; [|exact Hs].
    intros a b Hab. cbn beta in *. specialize (Hclock _ _ Hab). lia.
Qed.

Lemma window_times_witness :
  in_unit_interval host_cycle
  /\ (forall n m, (n < m)%nat -> clock host_cycle n < clock host_cycle m)
  /\ exists times,
       map timeOf
           (trafficData
              (fst (run [TrafficTimer; LogTimer; TrafficTimer] mounted
                      host_cycle boot)))
       = map Some times
       /\ StronglySorted Z.lt times.
Proof.
  assert (Hclock : forall n m, (n < m)%nat ->
                               clock host_cycle n < clock host_cycle m)
    by (intros n m Hnm; cbn [clock host_cycle]; lia).
  split; [exact host_cycle_unit|]. split; [exact Hclock|].
  destruct (window_times host_cycle boot
              [TrafficTimer; LogTimer; TrafficTimer] host_cycle_unit)
    as (times & Hmap & _ & Hlt).
  exists times. split; [exact Hmap | exact (Hlt Hclock)].
Defined.

(** ** The order of the history *)

Lemma StronglySorted_firstn {A} (R : A -> A -> Prop) n : forall l,
  StronglySorted R l -> StronglySorted R (firstn n l).
Proof.
  induction n as [|k IH]; intros l H; [constructor|].
  destruct l as [|x rest]; [constructor|].
  apply StronglySorted_inv in H as [Hs Hx].
  cbn [firstn]. constructor; [now apply IH | now apply Forall_firstn].
Qed.

Lemma StronglySorted_app {A} (R : A -> A -> Prop) l1 l2 :
  StronglySorted R l1 -> StronglySorted R l2 ->
  (forall a b, In a l1 -> In b l2 -> R a b) ->
  StronglySorted R (l1 ++ l2).
Proof.
  induction 1 as [|a rest Hs IH Ha]; intros H2 Hcross; [exact H2|].
  cbn [app]. constructor.
  - apply IH; [exact H2|]. intros x y Hx Hy. apply Hcross; [now right|exact Hy].
  - apply Forall_app. split; [exact Ha|].
    apply Forall_forall. intros y Hy. apply Hcross; [now left | exact Hy].
Qed.

Lemma StronglySorted_repeat (k n : nat) : StronglySorted ge (repeat k n).
Proof.
  induction n as [|m IH]; cbn [repeat]; constructor; [exact IH|].
  apply Forall_forall. intros x Hx. apply repeat_spec in Hx. subst. lia.
Qed.

Lemma last_In {A} (l : list A) (d : A) : l <> [] -> In (last l d) l.
Proof.
  induction l as [|a rest IH]; intros Hne; [congruence|].
  destruct rest as [|b rest']; [now left|].
  right. apply IH. discriminate.
Qed.

Lemma last_is_latest (cs : list Cursor) (c0 ck : Cursor) :
  StronglySorted (fun a b => reads a < reads b)%nat cs ->
  In ck cs ->
  In (last cs c0) cs /\ (reads ck <= reads (last cs c0))%nat.
Proof.
  intros Hs Hin. split; [apply last_In; now destruct cs|].
  induction Hs as [|a rest Hs IH Ha]; [contradiction|].
  destruct rest as [|b rest'].
  - destruct Hin as [<-|[]]. cbn. lia.
  - change (last (a :: b :: rest') c0) with (last (b :: rest') c0).
    destruct Hin as [<-|Hin]; [|now apply IH].
    rewrite Forall_forall in Ha.
    assert (Hl : In (last (b :: rest') c0) (b :: rest'))
      by (apply last_In; discriminate).
    specialize (Ha _ Hl). lia.
Qed.

Lemma arrival_stamps h ck :
  stamps (Some (arrival h ck))
  = repeat (stampOf h (reads ck)) (emitted (Some (arrival h ck))).
Proof. reflexivity. Qed.

(** The entries a log tick makes from a window of scheduled samples. *)
Lemma fresh_of_scheduled h cs c :
  StronglySorted (fun a b => reads a < reads b)%nat cs ->
  exists ks,
    map timestamp (fst (newLogs (slice_last 1 (arrivals h cs)) h c))
    = map (stampOf h) ks
    /\ StronglySorted ge ks
    /\ Forall (fun k => exists ck, In ck cs /\ (k <= reads ck)%nat) ks
    /\ forall k ck, In k ks -> In ck cs -> (reads ck <= k)%nat.
Proof.
  intros Hs. rewrite arrivals_slice, (slice_last_one cs c).
  destruct cs as [|c1 rest].
  - exists []. repeat split; try constructor. intros k ck [].
  - cbv iota.
    assert (H1 : In c1 (c1 :: rest)) by now left.
    remember (c1 :: rest) as cs eqn:E. clear E.
    set (cl := last cs c).
    exists (repeat (reads cl) (emitted (Some (arrival h cl)))).
    assert (Hcl : In cl cs) by apply (last_is_latest cs c c1 Hs H1).
    split; [|split; [|split]].
    + unfold arrivals. cbn [map]. rewrite newLogs_stamps by reflexivity.
      cbn [flat_map]. rewrite app_nil_r, arrival_stamps.
      now rewrite map_repeat.
    + apply StronglySorted_repeat.
    + apply Forall_forall. intros k Hk. apply repeat_spec in Hk. subst.
      now exists cl.
    + intros k ck Hk Hck. apply repeat_spec in Hk. subst.
      now apply (last_is_latest cs c ck Hs).
Qed.

Lemma updateLogs_fst window prevLogs h c :
  fst (updateLogs window prevLogs h c)
  = if (0 <? length (fst (newLogs (slice_last 1 window) h c)))%nat
    then slice_first 100 (fst (newLogs (slice_last 1 window) h c) ++ prevLogs)
    else prevLogs.
Proof.
  rewrite updateLogs_run. cbn [fst]. cbv zeta.
  now rewrite generateLogData_run.
Qed.

Lemma tick_chronicled h t d c :
  in_unit_interval h ->
  chronicled h d c ->
  chronicled h (fst (tick t d h c)) (snd (tick t d h c)).
Proof.
  intros Hh (cs & ks & Hw & Hs & Hc & Hl & Hks & Hk). destruct t.
  - rewrite tick_traffic, Hw, updateTrafficData_scheduled.
    exists (slice_last 29 cs ++ [c]), ks.
    split; [reflexivity|]. split; [|split; [|split; [|split]]].
    + apply StronglySorted_snoc.
      * now apply StronglySorted_skipn.
      * now apply Forall_skipn.
    + apply Forall_app. split.
      * apply Forall_skipn. eapply Forall_impl; [|exact Hc].
        intros ck Hck. cbn in *. lia.
      * repeat constructor.
    + exact Hl.
    + exact Hks.
    + eapply Forall_impl; [|exact Hk]. intros k (ck & Hin & Hle).
      exists c. split; [apply in_or_app; right; now left|].
      rewrite Forall_forall in Hc. specialize (Hc _ Hin). cbn in Hc. lia.
  - rewrite tick_logs. cbn [fst snd]. unfold chronicled.
    cbn [trafficData logs].
    pose proof (updateLogs_reads (trafficData d) (logs d) h c Hh) as Hr.
    assert (Hc' : Forall (fun ck => reads ck
                            < reads (snd (updateLogs (trafficData d)
                                            (logs d) h c)))%nat cs).
    { eapply Forall_impl; [|exact Hc]. intros ck Hck. cbn in *. lia. }
    rewrite updateLogs_fst.
    destruct (0 <? _)%nat.
    + destruct (fresh_of_scheduled h cs c Hs) as (kf & Hf & Hsf & Hkf & Hmax).
      exists cs, (firstn 100 (kf ++ ks)).
      split; [exact Hw|]. split; [exact Hs|]. split; [exact Hc'|].
      unfold slice_first. split; [|split].
      * rewrite <- !firstn_map, !map_app. rewrite <- Hw in Hf.
        now rewrite Hf, Hl.
      * apply StronglySorted_firstn. apply StronglySorted_app; try assumption.
        intros a b Ha Hb. rewrite Forall_forall in Hk.
        destruct (Hk _ Hb) as (ck & Hin & Hle).
        specialize (Hmax a ck Ha Hin). lia.
      * apply Forall_firstn. apply Forall_app. now split.
    + exists cs, ks. repeat split; assumption.
Qed.

(** X22: with every draw in [0, 1) and a clock that never goes back, at any
    moment of the life of the dashboard the history is ordered newest
    first: along the list the timestamps never increase. *)
Theorem history_newest_first h c timers :
  in_unit_interval h ->
  (forall n m, (n <= m)%nat -> clock h n <= clock h m) ->
  StronglySorted Z.ge
    (map timestamp (logs (fst (run timers mounted h c)))).
Proof.
  intros Hh Hclock.
  destruct (run_invariant_cursor (chronicled h) h
              (fun t d0 c0 => tick_chronicled h t d0 c0 Hh)
              timers mounted c) as (cs & ks & _ & _ & _ & Hl & Hks & _).
  { exists [], []. repeat split; constructor. }
  rewrite Hl. eapply StronglySorted_map; [|exact Hks].
  intros a b Hab. unfold stampOf. specialize (Hclock b a Hab). lia.
Qed.

Lemma history_newest_first_witness :
  in_unit_interval host_cycle
  /\ (forall n m, (n <= m)%nat -> clock host_cycle n <= clock host_cycle m)
  /\ StronglySorted Z.ge
       (map timestamp
            (logs (fst (run [TrafficTimer; LogTimer; TrafficTimer; LogTimer]
                          mounted host_cycle boot)))).
Proof.
  assert (Hclock : forall n m, (n <= m)%nat ->
                               clock host_cycle n <= clock host_cycle m)
    by (intros n m Hnm; cbn [clock host_cycle]; lia).
  split; [exact host_cycle_unit|]. split; [exact Hclock|].
  exact (history_newest_first host_cycle boot
           [TrafficTimer; LogTimer; TrafficTimer; LogTimer]
           host_cycle_unit Hclock).
Defined.
